(** * k8spool: peer discovery for a groupcache ring from the Kubernetes API

  A shallow embedding of [k8spool/pool.go].  The pool watches either the
  pods or the endpoints of a namespace through a shared informer, and on
  every add, update or delete notification rebuilds the complete peer list
  from the informer's store and hands it to the [OnUpdate] callback.

  Go code with effects is embedded in a state-and-panic monad [M]: the state
  is the pool struct behind the receiver pointer [e], the state of the
  embedding application, and the chronological trace of observable calls
  (logger calls, callback calls, channel and context operations). *)

From Stdlib Require Import ZArith List String Ascii Bool Lia DecimalString
  Permutation.
Import ListNotations.

Local Open Scope list_scope.
Local Open Scope string_scope.

(** ** The fragments of [fmt] the pool uses *)

Module fmt.

(** [%d] on an [int]: signed decimal, no padding. *)
Definition itoa (n : Z) : string := NilZero.string_of_int (Z.to_int n).

(** A Go [error] is carried by its message; [None] is the nil error. *)
Definition error := string.

(** [%v] on an [error] interface value: the message, or [<nil>]. *)
Definition verb_v_error (err : option error) : string :=
  match err with
  | Some msg => msg
  | None => "<nil>"
  end.

(** [%s] on an [error] interface value: the message; a nil interface has no
    [Error] method to call and prints as the bad-verb marker. *)
Definition verb_s_error (err : option error) : string :=
  match err with
  | Some msg => msg
  | None => "%!s(<nil>)"
  end.

(** [fmt.Errorf(prefix + ": %w", err)] for a non-nil [err]. *)
Definition wrap (prefix : string) (err : error) : error :=
  prefix ++ ": " ++ err.

(** The line feed written [\n] in a Go string literal. *)
Definition nl : string := String (ascii_of_nat 10) EmptyString.

(** [fmt.Sprintf("%s://%s:%d", scheme, host, port)]. *)
Definition Sprintf_peer (scheme host : string) (port : Z) : string :=
  scheme ++ "://" ++ host ++ ":" ++ itoa port.

End fmt.

(** ** The fields of [k8s.io/api/core/v1] the pool reads *)

Module api_v1.

Record ObjectMeta := {
  Name : string;
  Namespace : string
}.

(** [ContainerStateRunning]: present when the container is running. *)
Record ContainerStateRunning := {
  StartedAt : Z
}.

(** [ContainerState.Running] is a pointer; [None] is nil. *)
Record ContainerState := {
  Running : option ContainerStateRunning
}.

Record ContainerStatus := {
  Ready : bool;
  State : ContainerState
}.

Record PodStatus := {
  PodIP : string;
  ContainerStatuses : list ContainerStatus
}.

Record Pod := {
  PodMeta : ObjectMeta;
  Status : PodStatus
}.

Record EndpointAddress := {
  IP : string
}.

Record EndpointSubset := {
  Addresses : list EndpointAddress
}.

Record Endpoints := {
  EndpointsMeta : ObjectMeta;
  Subsets : list EndpointSubset
}.

End api_v1.

(** ** The fragments of [k8s.io/client-go/tools/cache] and of the runtime *)

Module cache.

Import api_v1.

(** An [interface{}] value held by the informer's store or carried by a
    notification: the nil interface, a [*v1.Pod] or [*v1.Endpoints]
    (whose pointer may itself be nil), or a value of some other dynamic
    type, identified by what [reflect.TypeOf(obj).String()] prints. *)
Inductive object :=
| NilObject
| PodObject (p : option Pod)
| EndpointsObject (ep : option Endpoints)
| OtherObject (tyname : string).

(** [obj.( *api_v1.Pod )] in its comma-ok form: the typed pointer (nil when
    the assertion fails) and the flag. *)
Definition assertPod (obj : object) : option Pod * bool :=
  match obj with
  | PodObject p => (p, true)
  | _ => (None, false)
  end.

Definition assertEndpoints (obj : object) : option Endpoints * bool :=
  match obj with
  | EndpointsObject ep => (ep, true)
  | _ => (None, false)
  end.

(** [reflect.TypeOf(obj).String()]: [reflect.TypeOf] of the nil interface is
    the nil [Type], on which [String] cannot be called. *)
Definition typeString (obj : object) : option string :=
  match obj with
  | NilObject => None
  | PodObject _ => Some "*v1.Pod"
  | EndpointsObject _ => Some "*v1.Endpoints"
  | OtherObject tyname => Some tyname
  end.

(** The object type an informer is created for. *)
Inductive objType := PodType | EndpointsType.

(** The three notifications of [ResourceEventHandlerFuncs]. *)
Inductive notification :=
| addNotification (obj : object)
| updateNotification (old new : object)
| deleteNotification (obj : object).

(** A [chan struct{}] used as a stop signal: nothing is ever sent, it is
    only closed. *)
Inductive chan := ChanOpen | ChanClosed.

End cache.

(** ** The states of a subscription *)

Module Lifecycle.

(** The four states the design distinguishes for one subscription;
    [Closed] is terminal. *)
Inductive t := Uninitialized | Syncing | Running | Closed.

End Lifecycle.

(** ** The fragments of prometheus and groupcache the collector uses *)

Module prometheus.

Inductive ValueType := CounterValue | GaugeValue.

(** A [float64] sample, kept as the conversion that produces it:
    [float64(n)] of an integer, possibly divided by a constant.  The
    floating-point value itself is not computed. *)
Inductive float64 :=
| float64_of_int (n : Z)
| float64_quot (x : float64) (d : Z).

(** [NewDesc(fqName, help, nil, nil)]. *)
Record Desc := { fqName : string; help : string }.

(** A constant metric without labels. *)
Record Metric := { desc : Desc; valueType : ValueType; value : float64 }.

End prometheus.

Module groupcache.

Module Stats.

(** [groupcache.Stats]: the counters of a group, as read with [Get()]. *)
Record t := {
  Gets : Z;
  CacheHits : Z;
  GetFromPeersLatencyLower : Z;
  PeerLoads : Z;
  PeerErrors : Z;
  Loads : Z;
  LoadsDeduped : Z;
  LocalLoads : Z;
  LocalLoadErrs : Z;
  ServerRequests : Z
}.

End Stats.

Module CacheStats.

(** [groupcache.CacheStats]. *)
Record t := {
  Bytes : Z;
  Items : Z;
  Gets : Z;
  Hits : Z;
  Evictions : Z
}.

End CacheStats.

Inductive CacheType := MainCache | HotCache.

Record Group := {
  name : string;
  Stats : Stats.t;
  mainCache : CacheStats.t;
  hotCache : CacheStats.t
}.

(** [func (g *Group) Name() string]. *)
Definition Name (g : Group) : string := name g.

(** [func (g *Group) CacheStats(which CacheType) CacheStats]. *)
Definition CacheStats (g : Group) (which : CacheType) : CacheStats.t :=
  match which with
  | MainCache => mainCache g
  | HotCache => hotCache g
  end.

End groupcache.

(** ** The metrics collector of [metrics/metrics.go] *)

Module metrics.

Import prometheus.

Section Collector.

(** Whether a descriptor with this name is accepted: with an invalid name
    [MustNewConstMetric] panics.  Which names are valid is decided by the
    prometheus library. *)
Variable IsValidMetricName : string -> bool.

(** [type collector struct]; the group pointer may be nil. *)
Record collector := { group : option groupcache.Group }.

Definition NewGroupCollector (group : option groupcache.Group) : collector :=
  {| group := group |}.

(** The receiving end of [ch]: the metrics sent so far, in order. *)
Definition Chan := list Metric.

(** A statement sequence on the channel: whether it ran to its end ([true])
    or panicked, and the channel it left. *)
Definition Sends := Chan -> bool * Chan.

Definition andThen (a b : Sends) : Sends :=
  fun ch =>
    match a ch with
    | (true, ch') => b ch'
    | (false, ch') => (false, ch')
    end.

Notation "a ;; b" := (andThen a b) (at level 100, right associativity).

(** [ch <- prometheus.MustNewConstMetric(prometheus.NewDesc(name, help, nil,
    nil), valueType, value)]. *)
Definition send (name help : string) (vt : ValueType) (v : float64) : Sends :=
  fun ch =>
    if IsValidMetricName name then
      (true, (ch ++ [{| desc := {| fqName := name; help := help |};
                        valueType := vt; value := v |}])%list)
    else (false, ch).

Definition cacheStats (prefix : string) (stats : groupcache.CacheStats.t) : Sends :=
  send (prefix ++ "size_bytes") "Cache size" GaugeValue
       (float64_of_int (groupcache.CacheStats.Bytes stats)) ;;
  send (prefix ++ "items") "Number of items in the cache" GaugeValue
       (float64_of_int (groupcache.CacheStats.Items stats)) ;;
  send (prefix ++ "evictions_total") "Number of evictions" CounterValue
       (float64_of_int (groupcache.CacheStats.Evictions stats)) ;;
  send (prefix ++ "gets_total") "Number of gets" CounterValue
       (float64_of_int (groupcache.CacheStats.Gets stats)) ;;
  send (prefix ++ "hits_total") "Number of hits" CounterValue
       (float64_of_int (groupcache.CacheStats.Hits stats)).

(** [func (c *collector) Collect]: reading the name of a nil group
    panics before anything is sent. *)
Definition Collect (c : collector) : Sends :=
  match group c with
  | None => fun ch => (false, ch)
  | Some g =>
      let prefix := "groupcache_" ++ groupcache.Name g ++ "_" in
      let stats := groupcache.Stats g in
      send (prefix ++ "gets_total")
           "Total number of get requests, including from peers" CounterValue
           (float64_of_int (groupcache.Stats.Gets stats)) ;;
      send (prefix ++ "cache_hits_total") "Total number of cache hits" CounterValue
           (float64_of_int (groupcache.Stats.CacheHits stats)) ;;
      send (prefix ++ "peer_load_max_latency_seconds")
           "Longest time to load a value from peers" GaugeValue
           (float64_quot (float64_of_int (groupcache.Stats.GetFromPeersLatencyLower stats))
                         1000) ;;
      send (prefix ++ "peer_loads_total")
           "Total number of remote load or remote cache hit (not an error)" CounterValue
           (float64_of_int (groupcache.Stats.PeerLoads stats)) ;;
      send (prefix ++ "peer_errors_total")
           "Total number of errors loading from peers" CounterValue
           (float64_of_int (groupcache.Stats.PeerErrors stats)) ;;
      send (prefix ++ "loads_total") "Total number of gets - cacheHits" CounterValue
           (float64_of_int (groupcache.Stats.Loads stats)) ;;
      send (prefix ++ "loads_deduped_total") "Total number of whatever" CounterValue
           (float64_of_int (groupcache.Stats.LoadsDeduped stats)) ;;
      send (prefix ++ "local_loads_total")
           "Total number of loading values locally" CounterValue
           (float64_of_int (groupcache.Stats.LocalLoads stats)) ;;
      send (prefix ++ "local_load_errors_total")
           "Total number of errors loading values locally" CounterValue
           (float64_of_int (groupcache.Stats.LocalLoadErrs stats)) ;;
      send (prefix ++ "server_requests_total")
           "Total number of gets that came over the network from peers" CounterValue
           (float64_of_int (groupcache.Stats.LocalLoadErrs stats)) ;;
      cacheStats (prefix ++ "main_cache_") (groupcache.CacheStats g groupcache.MainCache) ;;
      cacheStats (prefix ++ "hot_cache_") (groupcache.CacheStats g groupcache.HotCache)
  end.

(** The names of the metrics on a channel. *)
Definition names (ch : Chan) : list string := map (fun m => fqName (desc m)) ch.

(** The endings of the twenty names [Collect] uses, after the group's
    prefix, in the order of the sends. *)
Definition suffixes : list string :=
  ["gets_total"; "cache_hits_total"; "peer_load_max_latency_seconds";
   "peer_loads_total"; "peer_errors_total"; "loads_total"; "loads_deduped_total";
   "local_loads_total"; "local_load_errors_total"; "server_requests_total";
   "main_cache_size_bytes"; "main_cache_items"; "main_cache_evictions_total";
   "main_cache_gets_total"; "main_cache_hits_total";
   "hot_cache_size_bytes"; "hot_cache_items"; "hot_cache_evictions_total";
   "hot_cache_gets_total"; "hot_cache_hits_total"].

(** The group with its [ServerRequests] counter set to [n]. *)
Definition withServerRequests (g : groupcache.Group) (n : Z) : groupcache.Group :=
  {| groupcache.name := groupcache.name g;
     groupcache.Stats :=
       {| groupcache.Stats.Gets := groupcache.Stats.Gets (groupcache.Stats g);
          groupcache.Stats.CacheHits := groupcache.Stats.CacheHits (groupcache.Stats g);
          groupcache.Stats.GetFromPeersLatencyLower :=
            groupcache.Stats.GetFromPeersLatencyLower (groupcache.Stats g);
          groupcache.Stats.PeerLoads := groupcache.Stats.PeerLoads (groupcache.Stats g);
          groupcache.Stats.PeerErrors := groupcache.Stats.PeerErrors (groupcache.Stats g);
          groupcache.Stats.Loads := groupcache.Stats.Loads (groupcache.Stats g);
          groupcache.Stats.LoadsDeduped := groupcache.Stats.LoadsDeduped (groupcache.Stats g);
          groupcache.Stats.LocalLoads := groupcache.Stats.LocalLoads (groupcache.Stats g);
          groupcache.Stats.LocalLoadErrs := groupcache.Stats.LocalLoadErrs (groupcache.Stats g);
          groupcache.Stats.ServerRequests := n |};
     groupcache.mainCache := groupcache.mainCache g;
     groupcache.hotCache := groupcache.hotCache g |}.

(** The group of [main.go], with some counters: nine requests served for
    peers, three local loads failed. *)
Definition scenarioGroup : groupcache.Group :=
  {| groupcache.name := "testgroup";
     groupcache.Stats := groupcache.Stats.Build_t 7 5 0 1 0 2 0 1 3 9;
     groupcache.mainCache := groupcache.CacheStats.Build_t 10 1 7 5 0;
     groupcache.hotCache := groupcache.CacheStats.Build_t 0 0 0 0 0 |}.

End Collector.

End metrics.

(** ** The pool *)

Module k8spool.

Import api_v1 cache.

(** The application state of the scenarios: the peers the ring was last
    given, as [main.go] keeps them with [pool.Set(peers...)]. *)
Definition Ring := list string.

Definition setPeers (peers : list string) (ring : Ring) : Ring := peers.

Section Pool.

(** The state of the embedding application, which the [OnUpdate] closure
    may read and update (in [main.go] it holds the groupcache HTTP pool). *)
Context {App : Type}.

(** What the cluster and the client library answer.  These functions are
    not part of the repository; the pool is verified for every behaviour
    they may have. *)

(** [cache.MetaNamespaceKeyFunc(obj)]: the key and the error. *)
Variable MetaNamespaceKeyFunc : object -> string * option fmt.error.

(** The error results of [rest.InClusterConfig()] and of
    [kubernetes.NewForConfig(config)]. *)
Variable InClusterConfig : option fmt.error.
Variable NewForConfig : option fmt.error.

(** [type UpdateFunc func(peers []string)]. *)
Definition UpdateFunc := list string -> App -> App.

(** [type Logger interface]: each method is given by the lines the
    implementation writes for a formatted message. *)
Record Logger := { Debugf : string -> list string; Errorf : string -> list string }.

Record StdLogger := { Debug : bool; Error : bool }.

(** [func (c StdLogger) Debugf]: [log.Printf] behind the [Debug] flag. *)
Definition StdLogger_Debugf (c : StdLogger) (msg : string) : list string :=
  if Debug c then [msg] else [].

(** [func (c StdLogger) Errorf]: [log.Printf] behind the [Error] flag. *)
Definition StdLogger_Errorf (c : StdLogger) (msg : string) : list string :=
  if Error c then [msg] else [].

(** [StdLogger] implements [Logger]. *)
Definition StdLogger_Logger (c : StdLogger) : Logger :=
  {| Debugf := StdLogger_Debugf c; Errorf := StdLogger_Errorf c |}.

Definition WatchMechanism := string.
Definition WatchEndpoints : WatchMechanism := "endpoints".
Definition WatchPods : WatchMechanism := "pods".

(** [type Config struct].  [Logger] is an interface value and [OnUpdate] a
    func value: both may be nil ([None]).  [PeerPort] is a Go [int]. *)
Record Config := {
  ConfigLogger : option Logger;
  Mechanism : WatchMechanism;
  OnUpdate : option UpdateFunc;
  Namespace : string;
  Selector : string;
  PeerScheme : string;
  PeerPort : Z
}.

(** [cache.ListWatch] as the pool builds it: the listed resource, and the
    namespace and label selector its two closures capture. *)
Record ListWatch := {
  lwResource : objType;
  lwNamespace : string;
  lwLabelSelector : string
}.

(** Which method value was registered as [updateFunc] with the handlers. *)
Inductive updateFuncRef := UpdatePeersFromPods | UpdatePeersFromEndpoints.

(** [cache.SharedIndexInformer] as far as the pool observes it: what it was
    created with, the handlers added to it, whether [Run] was started,
    what [HasSynced()] answers, and what [GetStore().List()] currently
    returns. *)
Record SharedIndexInformer := {
  infListWatch : ListWatch;
  infObjType : objType;
  infHandler : option updateFuncRef;
  infStarted : bool;
  infHasSynced : bool;
  infStore : list object
}.

(** [context.Context] with its cancel function: only cancellation is
    observed. *)
Record Context := { cancelled : bool }.

(** [type K8sPool struct].  The channel and the context are held by their
    current state; [client] carries no state the pool reads. *)
Record K8sPool := {
  informer : option SharedIndexInformer;
  log : Logger;
  conf : Config;
  watchCtx : Context;
  done : chan
}.

(** *** Effects *)

Inductive Event :=
| CallDebugf (msg : string)
| CallErrorf (msg : string)
| CallOnUpdate (peers : list string)
| GoInformerRun
| CallWatchCancel
| CloseDone.

Record World := { app : App; trace : list Event }.

Inductive Outcome (A : Type) :=
| Return (a : A)
| Panic (reason : string).
Arguments Return {A} a.
Arguments Panic {A} reason.

Definition M (A : Type) := World -> Outcome A * World.

Definition ret {A} (a : A) : M A := fun w => (Return a, w).

Definition bind {A B} (m : M A) (k : A -> M B) : M B :=
  fun w =>
    match m w with
    | (Return a, w') => k a w'
    | (Panic reason, w') => (Panic reason, w')
    end.

Definition panic {A} (reason : string) : M A := fun w => (Panic reason, w).

Definition emit (ev : Event) : M unit :=
  fun w => (Return tt, {| app := app w; trace := (trace w ++ [ev])%list |}).

Notation "x <- m ;; k" := (bind m (fun x => k))
  (at level 100, m at next level, right associativity).
Notation "m ;; k" := (bind m (fun _ => k))
  (at level 100, right associativity).

Definition nilDeref : string :=
  "runtime error: invalid memory address or nil pointer dereference".

(** Reading a field through a pointer. *)
Definition deref {A} (p : option A) : M A :=
  match p with
  | Some a => ret a
  | None => panic nilDeref
  end.

(** [e.log.Debugf(...)] and [e.log.Errorf(...)]. *)
Definition logDebugf (e : K8sPool) (msg : string) : M unit := emit (CallDebugf msg).
Definition logErrorf (e : K8sPool) (msg : string) : M unit := emit (CallErrorf msg).

(** [e.conf.OnUpdate(peers)]: calling a nil func value panics. *)
Definition callOnUpdate (e : K8sPool) (peers : list string) : M unit :=
  match OnUpdate (conf e) with
  | Some f =>
      fun w => (Return tt, {| app := f peers (app w);
                              trace := (trace w ++ [CallOnUpdate peers])%list |})
  | None => panic nilDeref
  end.

(** [e.informer.GetStore().List()]: the objects in the order this listing
    gives them ([infStore]); two listings of one store are related by
    [sameStore] below. *)
Definition storeList (e : K8sPool) : M (list object) :=
  inf <- deref (informer e) ;;
  ret (infStore inf).

(** [reflect.TypeOf(obj).String()]. *)
Definition reflectTypeString (obj : object) : M string := deref (typeString obj).

(** *** The peer list builders *)

Definition notReady (status : ContainerStatus) : bool :=
  negb (Ready status) || match Running (State status) with None => true | Some _ => false end.

(** The inner loop of [updatePeersFromPods] over the container statuses:
    [false] when it leaves through [continue main], [true] when it runs to
    its end. *)
Fixpoint containersLoop (e : K8sPool) (peer : string)
    (statuses : list ContainerStatus) : M bool :=
  match statuses with
  | [] => ret true
  | status :: rest =>
      if notReady status then
        logDebugf e ("Skipping peer because it's not ready or not running: "
                     ++ peer ++ fmt.nl) ;;
        ret false
      else containersLoop e peer rest
  end.

(** The loop labelled [main] over the store's objects, with [peers] as the
    slice built so far. *)
Fixpoint podsLoop (e : K8sPool) (objs : list object) (peers : list string)
    : M (list string) :=
  match objs with
  | [] => ret peers
  | obj :: rest =>
      let '(pod, ok) := assertPod obj in
      (if negb ok then
         ty <- reflectTypeString obj ;;
         logErrorf e ("expected type v1.Endpoints got '" ++ ty ++ "' instead")
       else ret tt) ;;
      p <- deref pod ;;
      let peer := fmt.Sprintf_peer (PeerScheme (conf e)) (PodIP (Status p))
                                   (PeerPort (conf e)) in
      through <- containersLoop e peer (ContainerStatuses (Status p)) ;;
      if through then
        logDebugf e ("Peer: " ++ peer ++ fmt.nl) ;;
        podsLoop e rest (peers ++ [peer])%list
      else podsLoop e rest peers
  end.

Definition updatePeersFromPods (e : K8sPool) : M unit :=
  logDebugf e "Fetching peer list from pods API" ;;
  objs <- storeList e ;;
  peers <- podsLoop e objs [] ;;
  callOnUpdate e peers.

(** The loop over the addresses of one subset. *)
Fixpoint addressesLoop (e : K8sPool) (addrs : list EndpointAddress)
    (peers : list string) : M (list string) :=
  match addrs with
  | [] => ret peers
  | addr :: rest =>
      let peer := fmt.Sprintf_peer (PeerScheme (conf e)) (IP addr)
                                   (PeerPort (conf e)) in
      logDebugf e ("Peer: " ++ peer ++ fmt.nl) ;;
      addressesLoop e rest (peers ++ [peer])%list
  end.

(** The loop over the subsets of one endpoints object. *)
Fixpoint subsetsLoop (e : K8sPool) (subsets : list EndpointSubset)
    (peers : list string) : M (list string) :=
  match subsets with
  | [] => ret peers
  | s :: rest =>
      peers' <- addressesLoop e (Addresses s) peers ;;
      subsetsLoop e rest peers'
  end.

Fixpoint endpointsLoop (e : K8sPool) (objs : list object) (peers : list string)
    : M (list string) :=
  match objs with
  | [] => ret peers
  | obj :: rest =>
      let '(endpoint, ok) := assertEndpoints obj in
      (if negb ok then
         ty <- reflectTypeString obj ;;
         logErrorf e ("expected type v1.Endpoints got '" ++ ty ++ "' instead")
       else ret tt) ;;
      ep <- deref endpoint ;;
      peers' <- subsetsLoop e (Subsets ep) peers ;;
      endpointsLoop e rest peers'
  end.

Definition updatePeersFromEndpoints (e : K8sPool) : M unit :=
  logDebugf e "Fetching peer list from endpoints API" ;;
  objs <- storeList e ;;
  peers <- endpointsLoop e objs [] ;;
  callOnUpdate e peers.

(** *** The event handlers *)

Definition setInformer (e : K8sPool) (inf : SharedIndexInformer) : K8sPool :=
  {| informer := Some inf; log := log e; conf := conf e;
     watchCtx := watchCtx e; done := done e |}.

Definition setDone (e : K8sPool) (c : chan) : K8sPool :=
  {| informer := informer e; log := log e; conf := conf e;
     watchCtx := watchCtx e; done := c |}.

Definition setWatchCtx (e : K8sPool) (ctx : Context) : K8sPool :=
  {| informer := informer e; log := log e; conf := conf e;
     watchCtx := ctx; done := done e |}.

(** The three closures of [cache.ResourceEventHandlerFuncs] registered by
    [startGenericWatch]; they capture [e] and [updateFunc]. *)
Definition handlerAddFunc (e : K8sPool) (updateFunc : M unit) (obj : object)
    : M unit :=
  let '(key, err) := MetaNamespaceKeyFunc obj in
  logDebugf e ("Queue (Add) '" ++ key ++ "' - " ++ fmt.verb_v_error err) ;;
  match err with
  | Some _ =>
      logErrorf e ("while calling MetaNamespaceKeyFunc(): " ++ fmt.verb_s_error err)
  | None => updateFunc
  end.

(** The key is computed from the old object; [new] is not read. *)
Definition handlerUpdateFunc (e : K8sPool) (updateFunc : M unit)
    (obj new : object) : M unit :=
  let '(key, err) := MetaNamespaceKeyFunc obj in
  logDebugf e ("Queue (Update) '" ++ key ++ "' - " ++ fmt.verb_v_error err) ;;
  match err with
  | Some _ =>
      logErrorf e ("while calling MetaNamespaceKeyFunc(): " ++ fmt.verb_s_error err)
  | None => updateFunc
  end.

Definition handlerDeleteFunc (e : K8sPool) (updateFunc : M unit) (obj : object)
    : M unit :=
  let '(key, err) := MetaNamespaceKeyFunc obj in
  logDebugf e ("Queue (Delete) '" ++ key ++ "' - " ++ fmt.verb_v_error err) ;;
  match err with
  | Some _ =>
      logErrorf e ("while calling MetaNamespaceKeyFunc(): " ++ fmt.verb_s_error err)
  | None => updateFunc
  end.

(** The informer calling the registered handler for a notification. *)
Definition handle (e : K8sPool) (updateFunc : M unit) (n : notification)
    : M unit :=
  match n with
  | addNotification obj => handlerAddFunc e updateFunc obj
  | updateNotification old new => handlerUpdateFunc e updateFunc old new
  | deleteNotification obj => handlerDeleteFunc e updateFunc obj
  end.

Definition callUpdateFunc (r : updateFuncRef) (e : K8sPool) : M unit :=
  match r with
  | UpdatePeersFromPods => updatePeersFromPods e
  | UpdatePeersFromEndpoints => updatePeersFromEndpoints e
  end.

(** The object a notification is keyed by, and the word its handler
    writes in the debug line. *)
Definition keyedObject (n : notification) : object :=
  match n with
  | addNotification obj => obj
  | updateNotification old _ => old
  | deleteNotification obj => obj
  end.

Definition kindWord (n : notification) : string :=
  match n with
  | addNotification _ => "Add"
  | updateNotification _ _ => "Update"
  | deleteNotification _ => "Delete"
  end.

(** *** Lifecycle *)

(** [cache.WaitForCacheSync(e.done, e.informer.HasSynced)]: whether the
    informer's first listing completed before waiting was given up.  The
    pool is embedded for every answer; when the library gives up is stated
    by [waitsUntilStopped] below. *)
Variable WaitForCacheSync : chan -> SharedIndexInformer -> bool.

(** What the informer's first listing puts into the store. *)
Variable ListResult : ListWatch -> list object.

Definition setStore (inf : SharedIndexInformer) (objs : list object)
    : SharedIndexInformer :=
  {| infListWatch := infListWatch inf; infObjType := infObjType inf;
     infHandler := infHandler inf; infStarted := infStarted inf;
     infHasSynced := infHasSynced inf; infStore := objs |}.

(** [cache.NewSharedIndexInformer(listWatch, objType, 0, cache.Indexers{})]:
    no handler, not started, an empty store. *)
Definition NewSharedIndexInformer (listWatch : ListWatch) (objT : objType)
    : SharedIndexInformer :=
  {| infListWatch := listWatch; infObjType := objT; infHandler := None;
     infStarted := false; infHasSynced := false; infStore := [] |}.

Definition AddEventHandler (inf : SharedIndexInformer) (updateFunc : updateFuncRef)
    : SharedIndexInformer :=
  {| infListWatch := infListWatch inf; infObjType := infObjType inf;
     infHandler := Some updateFunc; infStarted := infStarted inf;
     infHasSynced := infHasSynced inf; infStore := infStore inf |}.

(** The informer once [Run] has been started on it. *)
Definition running (inf : SharedIndexInformer) : SharedIndexInformer :=
  {| infListWatch := infListWatch inf; infObjType := infObjType inf;
     infHandler := infHandler inf; infStarted := true;
     infHasSynced := infHasSynced inf; infStore := infStore inf |}.

(** The informer once its first listing has filled the store.  The
    notifications the informer hands to the handlers for the listed
    objects are deliveries of the worker ([deliver]), which runs beside
    [start]. *)
Definition synced (inf : SharedIndexInformer) : SharedIndexInformer :=
  {| infListWatch := infListWatch inf; infObjType := infObjType inf;
     infHandler := infHandler inf; infStarted := infStarted inf;
     infHasSynced := true; infStore := ListResult (infListWatch inf) |}.

(** [close(e.done)]: closing a closed channel panics. *)
Definition closeDone (e : K8sPool) : M K8sPool :=
  match done e with
  | ChanOpen => emit CloseDone ;; ret (setDone e ChanClosed)
  | ChanClosed => panic "close of closed channel"
  end.

Definition syncTimeout : fmt.error := "timed out waiting for caches to sync".

(** The pool after the call and the [error] the Go function returns. *)
Definition startGenericWatch (e : K8sPool) (objT : objType) (listWatch : ListWatch)
    (updateFunc : updateFuncRef) : M (K8sPool * option fmt.error) :=
  let inf := NewSharedIndexInformer listWatch objT in
  let inf := AddEventHandler inf updateFunc in
  let e := setInformer e inf in
  (* go e.informer.Run(e.done) *)
  emit GoInformerRun ;;
  let inf := running inf in
  let e := setInformer e inf in
  if negb (WaitForCacheSync (done e) inf) then
    e <- closeDone e ;;
    ret (e, Some syncTimeout)
  else
    ret (setInformer e (synced inf), None).

Definition startPodWatch (e : K8sPool) : M (K8sPool * option fmt.error) :=
  let listWatch := {| lwResource := PodType; lwNamespace := Namespace (conf e);
                      lwLabelSelector := Selector (conf e) |} in
  startGenericWatch e PodType listWatch UpdatePeersFromPods.

Definition startEndpointWatch (e : K8sPool) : M (K8sPool * option fmt.error) :=
  let listWatch := {| lwResource := EndpointsType; lwNamespace := Namespace (conf e);
                      lwLabelSelector := Selector (conf e) |} in
  startGenericWatch e EndpointsType listWatch UpdatePeersFromEndpoints.

Definition start (e : K8sPool) : M (K8sPool * option fmt.error) :=
  if (Mechanism (conf e) =? "")%string || (Mechanism (conf e) =? WatchEndpoints)%string
  then startEndpointWatch e
  else if (Mechanism (conf e) =? WatchPods)%string
  then startPodWatch e
  else ret (e, Some ("unknown value for watch mechanism: " ++ Mechanism (conf e))).

(** The three defaults [New] fills in. *)
Definition defaultLogger : Logger := StdLogger_Logger {| Debug := false; Error := true |}.

Definition withDefaults (c : Config) : Config :=
  let c1 := match ConfigLogger c with
            | None =>
                {| ConfigLogger := Some defaultLogger; Mechanism := Mechanism c;
                   OnUpdate := OnUpdate c; Namespace := Namespace c;
                   Selector := Selector c; PeerScheme := PeerScheme c;
                   PeerPort := PeerPort c |}
            | Some _ => c
            end in
  let c2 := if (PeerScheme c1 =? "")%string then
              {| ConfigLogger := ConfigLogger c1; Mechanism := Mechanism c1;
                 OnUpdate := OnUpdate c1; Namespace := Namespace c1;
                 Selector := Selector c1; PeerScheme := "http";
                 PeerPort := PeerPort c1 |}
            else c1 in
  if (PeerPort c2 =? 0)%Z then
    {| ConfigLogger := ConfigLogger c2; Mechanism := Mechanism c2;
       OnUpdate := OnUpdate c2; Namespace := Namespace c2;
       Selector := Selector c2; PeerScheme := PeerScheme c2;
       PeerPort := 8080 |}
  else c2.

(** [New] returns the pool pointer (nil when no pool was built) and the
    error. *)
Definition New (c : Config) : M (option K8sPool * option fmt.error) :=
  match InClusterConfig with
  | Some err => ret (None, Some (fmt.wrap "Failed to get k8s rest config" err))
  | None =>
      match NewForConfig with
      | Some err => ret (None, Some (fmt.wrap "Failed to create k8s client" err))
      | None =>
          let c := withDefaults c in
          let pool := {| informer := None;
                         log := match ConfigLogger c with
                                | Some l => l
                                | None => defaultLogger
                                end;
                         conf := c;
                         watchCtx := {| cancelled := false |};
                         done := ChanOpen |} in
          r <- start pool ;;
          ret (Some (fst r), snd r)
      end
  end.

Definition Close (e : K8sPool) : M K8sPool :=
  emit CallWatchCancel ;;
  closeDone (setWatchCtx e {| cancelled := true |}).

(** *** The background worker *)

(** Whether the goroutine started by [go e.informer.Run(e.done)] is still
    running: [Run] returns when its stop channel is closed. *)
Definition workerRunning (e : K8sPool) : bool :=
  match informer e, done e with
  | Some inf, ChanOpen => infStarted inf
  | _, _ => false
  end.

(** One step of the worker: the store has been brought to [objs] and the
    notification [n] is handed to the registered handler. *)
Definition deliver (e : K8sPool) (objs : list object) (n : notification)
    : M K8sPool :=
  match informer e with
  | Some inf =>
      let e := setInformer e (setStore inf objs) in
      match infHandler inf with
      | Some r => handle e (callUpdateFunc r e) n ;; ret e
      | None => ret e
      end
  | None => ret e
  end.

(** The worker handling a sequence of notifications, one after the other,
    for as long as it runs. *)
Fixpoint worker (e : K8sPool) (ns : list (list object * notification))
    : M K8sPool :=
  match ns with
  | [] => ret e
  | (objs, n) :: rest =>
      if workerRunning e then
        e <- deliver e objs n ;;
        worker e rest
      else ret e
  end.

(** The state of the subscription, read off the pool: closed once the
    done channel is closed; before that, uninitialized until [Run] has been
    started, syncing until the first listing has completed, and running
    from then on. *)
Definition lifecycle (e : K8sPool) : Lifecycle.t :=
  match done e with
  | ChanClosed => Lifecycle.Closed
  | ChanOpen =>
      match informer e with
      | None => Lifecycle.Uninitialized
      | Some inf =>
          if infStarted inf then
            if infHasSynced inf then Lifecycle.Running else Lifecycle.Syncing
          else Lifecycle.Uninitialized
      end
  end.

(** *** What the builders are expected to compute *)

(** A store entry that is a (non-nil) pod, or endpoints object. *)
Definition podObject (p : Pod) : object := PodObject (Some p).
Definition endpointsObject (ep : Endpoints) : object := EndpointsObject (Some ep).

(** A container status passes when it is ready and has a running state. *)
Definition statusPasses (status : ContainerStatus) : Prop :=
  Ready status = true /\ Running (State status) <> None.

Definition podReady (p : Pod) : bool :=
  forallb (fun status => negb (notReady status)) (ContainerStatuses (Status p)).

Definition podPeer (c : Config) (p : Pod) : string :=
  fmt.Sprintf_peer (PeerScheme c) (PodIP (Status p)) (PeerPort c).

Definition addressPeer (c : Config) (addr : EndpointAddress) : string :=
  fmt.Sprintf_peer (PeerScheme c) (IP addr) (PeerPort c).

(** The (subset, address) pairs of the endpoint objects, in store order. *)
Definition subsetAddressPairs (eps : list Endpoints)
    : list (EndpointSubset * EndpointAddress) :=
  flat_map (fun ep =>
    flat_map (fun s => map (fun addr => (s, addr)) (Addresses s)) (Subsets ep)) eps.

(** The arguments of the [OnUpdate] calls in a trace, in order. *)
Fixpoint onUpdateCalls (evs : list Event) : list (list string) :=
  match evs with
  | [] => []
  | CallOnUpdate peers :: rest => peers :: onUpdateCalls rest
  | _ :: rest => onUpdateCalls rest
  end.

(** The messages of the [Errorf] calls in a trace, in order. *)
Fixpoint errorfCalls (evs : list Event) : list string :=
  match evs with
  | [] => []
  | CallErrorf msg :: rest => msg :: errorfCalls rest
  | _ :: rest => errorfCalls rest
  end.

(** The logger calls one pod gives rise to in [updatePeersFromPods]. *)
Definition podEvents (c : Config) (p : Pod) : list Event :=
  if podReady p then [CallDebugf ("Peer: " ++ podPeer c p ++ fmt.nl)]
  else [CallDebugf ("Skipping peer because it's not ready or not running: "
                    ++ podPeer c p ++ fmt.nl)].

Definition addressEvents (c : Config) (addr : EndpointAddress) : list Event :=
  [CallDebugf ("Peer: " ++ addressPeer c addr ++ fmt.nl)].

(** The world with further events appended to its trace. *)
Definition addTrace (w : World) (evs : list Event) : World :=
  {| app := app w; trace := (trace w ++ evs)%list |}.

(** The peer list and the logger calls of the pods builder. *)
Definition podPeers (c : Config) (pods : list Pod) : list string :=
  map (podPeer c) (filter podReady pods).

Definition podsBuildLog (c : Config) (pods : list Pod) : list Event :=
  CallDebugf "Fetching peer list from pods API" :: flat_map (podEvents c) pods.

Definition subsetPeers (c : Config) (s : EndpointSubset) : list string :=
  map (addressPeer c) (Addresses s).

Definition subsetEvents (c : Config) (s : EndpointSubset) : list Event :=
  flat_map (addressEvents c) (Addresses s).

Definition endpointsPeers (c : Config) (eps : list Endpoints) : list string :=
  flat_map (fun ep => flat_map (subsetPeers c) (Subsets ep)) eps.

Definition endpointsEvents (c : Config) (eps : list Endpoints) : list Event :=
  flat_map (fun ep => flat_map (subsetEvents c) (Subsets ep)) eps.

Definition endpointsBuildLog (c : Config) (eps : list Endpoints) : list Event :=
  CallDebugf "Fetching peer list from endpoints API" :: endpointsEvents c eps.

(** A computation whose outcome and emitted events are the same from every
    world, and which touches the application state only through a fixed
    function. *)
Definition stateless {A} (m : M A) : Prop :=
  exists (r : Outcome A) (evs : list Event) (g : App -> App),
    forall w, m w = (r, {| app := g (app w); trace := (trace w ++ evs)%list |}).

(** A store entry is of the type the registered builder asserts, and its
    pointer is not nil. *)
Definition fits (r : updateFuncRef) (obj : object) : bool :=
  match r, obj with
  | UpdatePeersFromPods, PodObject (Some _) => true
  | UpdatePeersFromEndpoints, EndpointsObject (Some _) => true
  | _, _ => false
  end.

(** The informer [startGenericWatch] has built by the time it waits. *)
Definition watchInformer (objT : objType) (listWatch : ListWatch)
    (updateFunc : updateFuncRef) : SharedIndexInformer :=
  running (AddEventHandler (NewSharedIndexInformer listWatch objT) updateFunc).

(** The arguments [start] passes on, by mechanism. *)
Definition podListWatch (c : Config) : ListWatch :=
  {| lwResource := PodType; lwNamespace := Namespace c;
     lwLabelSelector := Selector c |}.

Definition endpointsListWatch (c : Config) : ListWatch :=
  {| lwResource := EndpointsType; lwNamespace := Namespace c;
     lwLabelSelector := Selector c |}.

(** The pool [New] builds before it calls [start]. *)
Definition newPool (c : Config) : K8sPool :=
  {| informer := None;
     log := match ConfigLogger (withDefaults c) with
            | Some l => l
            | None => defaultLogger
            end;
     conf := withDefaults c;
     watchCtx := {| cancelled := false |};
     done := ChanOpen |}.

(** *** Scenarios *)

Definition scenarioConf (f : UpdateFunc) (mechanism scheme : string) (port : Z)
    : Config :=
  {| ConfigLogger := None; Mechanism := mechanism; OnUpdate := Some f;
     Namespace := "default"; Selector := "app=cache";
     PeerScheme := scheme; PeerPort := port |}.

Definition runningStatus : ContainerStatus :=
  {| Ready := true; State := {| Running := Some {| StartedAt := 0 |} |} |}.

Definition unreadyStatus : ContainerStatus :=
  {| Ready := false; State := {| Running := None |} |}.

Definition scenarioPod (name ip : string) (statuses : list ContainerStatus) : Pod :=
  {| PodMeta := {| Name := name; api_v1.Namespace := "default" |};
     Status := {| PodIP := ip; ContainerStatuses := statuses |} |}.

Definition scenarioEndpoints (name : string) (subsets : list (list string)) : Endpoints :=
  {| EndpointsMeta := {| Name := name; api_v1.Namespace := "default" |};
     Subsets := map (fun ips => {| Addresses := map (fun ip => {| IP := ip |}) ips |})
                    subsets |}.

(** A started, synced informer holding [objs]. *)
Definition scenarioInformer (objT : objType) (updateFunc : updateFuncRef)
    (objs : list object) : SharedIndexInformer :=
  {| infListWatch := {| lwResource := objT; lwNamespace := "default";
                        lwLabelSelector := "app=cache" |};
     infObjType := objT; infHandler := Some updateFunc; infStarted := true;
     infHasSynced := true; infStore := objs |}.

Definition scenarioPool (c : Config) (inf : option SharedIndexInformer) : K8sPool :=
  {| informer := inf; log := defaultLogger; conf := c;
     watchCtx := {| cancelled := false |}; done := ChanOpen |}.

Definition podsPool (f : UpdateFunc) (objs : list object) : K8sPool :=
  scenarioPool (scenarioConf f "pods" "https" 443)
               (Some (scenarioInformer PodType UpdatePeersFromPods objs)).

Definition endpointsPool (f : UpdateFunc) (objs : list object) : K8sPool :=
  scenarioPool (scenarioConf f "endpoints" "http" 9090)
               (Some (scenarioInformer EndpointsType UpdatePeersFromEndpoints objs)).

(** A world in which nothing has happened yet. *)
Definition scenarioWorld (a : App) : World := {| app := a; trace := [] |}.

(** A key function in the manner of the client library: namespace and name
    for objects with metadata, an error for the others. *)
Definition scenarioKeyFunc (obj : object) : string * option fmt.error :=
  match obj with
  | PodObject (Some p) =>
      (api_v1.Namespace (PodMeta p) ++ "/" ++ Name (PodMeta p), None)
  | EndpointsObject (Some ep) =>
      (api_v1.Namespace (EndpointsMeta ep) ++ "/" ++ Name (EndpointsMeta ep), None)
  | _ => ("", Some "object has no meta: object does not implement the Object interfaces")
  end.

Definition podA : Pod := scenarioPod "cache-0" "10.0.0.2" [runningStatus].
Definition podB : Pod := scenarioPod "cache-1" "10.0.0.3" [runningStatus].
Definition podDown : Pod := scenarioPod "cache-2" "10.0.0.4" [unreadyStatus].
Definition endpointsA : Endpoints := scenarioEndpoints "cache" [["10.0.0.1"; "10.0.0.5"]].

(** A pool for the pods mechanism whose configuration has no callback. *)
Definition podsPoolWithoutCallback (objs : list object) : K8sPool :=
  {| informer := Some (scenarioInformer PodType UpdatePeersFromPods objs);
     log := defaultLogger;
     conf := {| ConfigLogger := None; Mechanism := "pods"; OnUpdate := None;
                Namespace := "default"; Selector := "app=cache";
                PeerScheme := "https"; PeerPort := 443 |};
     watchCtx := {| cancelled := false |}; done := ChanOpen |}.

(** *** Further notions used in the statements *)

(** The peers one store entry contributes to the list of the builder [r];
    entries that builder would not accept contribute none. *)
Definition objectPeers (r : updateFuncRef) (c : Config) (obj : object) : list string :=
  match r, obj with
  | UpdatePeersFromPods, PodObject (Some p) =>
      if podReady p then [podPeer c p] else []
  | UpdatePeersFromEndpoints, EndpointsObject (Some ep) =>
      flat_map (subsetPeers c) (Subsets ep)
  | _, _ => []
  end.

Definition storePeers (r : updateFuncRef) (c : Config) (objs : list object)
    : list string :=
  flat_map (objectPeers r c) objs.

(** The pool once its informer's store lists [objs]. *)
Definition withStore (e : K8sPool) (objs : list object) : K8sPool :=
  match informer e with
  | Some inf => setInformer e (setStore inf objs)
  | None => e
  end.

(** Whether [MetaNamespaceKeyFunc] gives a key for the object a notification
    is keyed by. *)
Definition keyed (n : notification) : bool :=
  match snd (MetaNamespaceKeyFunc (keyedObject n)) with
  | None => true
  | Some _ => false
  end.

(** The lines a logger writes for the logger calls of a trace. *)
Definition printed (l : Logger) (evs : list Event) : list string :=
  flat_map (fun ev => match ev with
                      | CallDebugf msg => Debugf l msg
                      | CallErrorf msg => Errorf l msg
                      | _ => []
                      end) evs.

(** The informer [start] builds for a configuration, if its mechanism is
    known. *)
Definition mechanismInformer (c : Config) : option SharedIndexInformer :=
  if (Mechanism c =? "")%string || (Mechanism c =? WatchEndpoints)%string
  then Some (watchInformer EndpointsType (endpointsListWatch c) UpdatePeersFromEndpoints)
  else if (Mechanism c =? WatchPods)%string
  then Some (watchInformer PodType (podListWatch c) UpdatePeersFromPods)
  else None.


(** [GetStore().List()] collects the values of a Go map, whose iteration
    order is not fixed: two listings of a store that was not modified in
    between hold the same objects, in whatever order. *)
Definition sameStore (objs1 objs2 : list object) : Prop :=
  Permutation objs1 objs2.

(** [startGenericWatch] hands [WaitForCacheSync] the done channel as its
    stop channel and no duration: the wait ends when [HasSynced] holds or
    when that channel is closed, and answers false only in the latter
    case. *)
Definition waitsUntilStopped : Prop :=
  forall (ch : chan) (inf : SharedIndexInformer),
    WaitForCacheSync ch inf = false -> ch = ChanClosed.

(** The wait on a cluster whose first listing completes: it gives up only
    on a closed stop channel. *)
Definition scenarioWait (ch : chan) (inf : SharedIndexInformer) : bool :=
  match ch with
  | ChanOpen => true
  | ChanClosed => false
  end.


(** *** The caller in [main.go] *)

(** [localpeer := fmt.Sprintf("http://%s:%d", selfip, port)]. *)
Definition localpeer (selfip : string) (port : Z) : string :=
  "http://" ++ selfip ++ ":" ++ fmt.itoa port.

(** The [k8spool.Config] literal [main] passes to [New]. *)
Definition mainConfig (namespace selector : string) (port : Z) (onUpdate : UpdateFunc)
    : Config :=
  {| ConfigLogger := None; Mechanism := ""; OnUpdate := Some onUpdate;
     Namespace := namespace; Selector := selector;
     PeerScheme := "http"; PeerPort := port |}.

(** ** Properties *)

Lemma addTrace_nil (w : World) : addTrace w [] = w.
Proof.
  destruct w as [a tr]. unfold addTrace. simpl. now rewrite app_nil_r.
Qed.

Lemma addTrace_addTrace (w : World) (evs1 evs2 : list Event) :
  addTrace (addTrace w evs1) evs2 = addTrace w (evs1 ++ evs2)%list.
Proof.
  unfold addTrace. simpl. now rewrite app_assoc.
Qed.

Lemma emit_run (ev : Event) (w : World) : emit ev w = (Return tt, addTrace w [ev]).
Proof. reflexivity. Qed.

Lemma onUpdateCalls_app (evs1 evs2 : list Event) :
  onUpdateCalls (evs1 ++ evs2)%list = (onUpdateCalls evs1 ++ onUpdateCalls evs2)%list.
Proof.
  induction evs1 as [|ev evs1 IH]; simpl; [reflexivity|].
  destruct ev; simpl; now rewrite ?IH.
Qed.

Lemma errorfCalls_app (evs1 evs2 : list Event) :
  errorfCalls (evs1 ++ evs2)%list = (errorfCalls evs1 ++ errorfCalls evs2)%list.
Proof.
  induction evs1 as [|ev evs1 IH]; simpl; [reflexivity|].
  destruct ev; simpl; now rewrite ?IH.
Qed.

Lemma notReady_false_iff (status : ContainerStatus) :
  notReady status = false <-> statusPasses status.
Proof.
  unfold notReady, statusPasses.
  destruct (Ready status), (Running (State status)); simpl; split;
    try congruence; intros H; try (split; congruence); destruct H; congruence.
Qed.

Lemma podReady_iff (p : Pod) :
  podReady p = true <-> Forall statusPasses (ContainerStatuses (Status p)).
Proof.
  unfold podReady. rewrite forallb_forall, Forall_forall.
  split; intros H status Hin; specialize (H status Hin).
  - apply notReady_false_iff. now destruct (notReady status).
  - apply notReady_false_iff in H. now rewrite H.
Qed.

(** **** The pods builder on a store of pods *)

Lemma containersLoop_run (e : K8sPool) (peer : string)
    (statuses : list ContainerStatus) (w : World) :
  containersLoop e peer statuses w =
    let through := forallb (fun status => negb (notReady status)) statuses in
    (Return through,
     addTrace w (if through then []
                 else [CallDebugf ("Skipping peer because it's not ready or not running: "
                                   ++ peer ++ fmt.nl)])).
Proof.
  induction statuses as [|status rest IH]; simpl.
  - unfold ret. now rewrite addTrace_nil.
  - destruct (notReady status); simpl.
    + reflexivity.
    + apply IH.
Qed.

Lemma podsLoop_run (e : K8sPool) (pods : list Pod) :
  forall (peers : list string) (w : World),
    podsLoop e (map podObject pods) peers w =
      (Return (peers ++ map (podPeer (conf e)) (filter podReady pods))%list,
       addTrace w (flat_map (podEvents (conf e)) pods)).
Proof.
  induction pods as [|p rest IH]; intros peers w; simpl.
  - unfold ret. now rewrite addTrace_nil, app_nil_r.
  - unfold bind at 1. simpl. unfold bind at 1. simpl.
    unfold bind at 1. rewrite containersLoop_run. cbv zeta.
    unfold podEvents at 1. fold (podReady p). fold (podPeer (conf e) p).
    destruct (podReady p); simpl.
    + rewrite addTrace_nil. unfold bind at 1. unfold logDebugf. rewrite emit_run.
      rewrite IH, addTrace_addTrace. now rewrite <- app_assoc.
    + now rewrite IH, addTrace_addTrace.
Qed.

Lemma updatePeersFromPods_run (e : K8sPool) (inf : SharedIndexInformer)
    (pods : list Pod) (f : UpdateFunc) (w : World) :
  informer e = Some inf ->
  infStore inf = map podObject pods ->
  OnUpdate (conf e) = Some f ->
  updatePeersFromPods e w =
    (Return tt,
     {| app := f (podPeers (conf e) pods) (app w);
        trace := (trace w ++ podsBuildLog (conf e) pods
                          ++ [CallOnUpdate (podPeers (conf e) pods)])%list |}).
Proof.
  intros Hinf Hstore Hf.
  unfold updatePeersFromPods, storeList, logDebugf, bind.
  rewrite emit_run, Hinf. simpl. rewrite Hstore, podsLoop_run.
  unfold callOnUpdate. rewrite Hf. simpl.
  unfold podsBuildLog, podPeers. simpl.
  now rewrite <- !app_assoc.
Qed.

(** **** The endpoints builder on a store of endpoints objects *)

Lemma addressesLoop_run (e : K8sPool) (addrs : list EndpointAddress) :
  forall (peers : list string) (w : World),
    addressesLoop e addrs peers w =
      (Return (peers ++ map (addressPeer (conf e)) addrs)%list,
       addTrace w (flat_map (addressEvents (conf e)) addrs)).
Proof.
  induction addrs as [|addr rest IH]; intros peers w; simpl.
  - unfold ret. now rewrite addTrace_nil, app_nil_r.
  - unfold bind at 1. unfold logDebugf. rewrite emit_run.
    rewrite IH, addTrace_addTrace. fold (addressPeer (conf e) addr).
    now rewrite <- app_assoc.
Qed.

Lemma subsetsLoop_run (e : K8sPool) (subsets : list EndpointSubset) :
  forall (peers : list string) (w : World),
    subsetsLoop e subsets peers w =
      (Return (peers ++ flat_map (subsetPeers (conf e)) subsets)%list,
       addTrace w (flat_map (subsetEvents (conf e)) subsets)).
Proof.
  induction subsets as [|s rest IH]; intros peers w; simpl.
  - unfold ret. now rewrite addTrace_nil, app_nil_r.
  - unfold bind at 1. rewrite addressesLoop_run.
    rewrite IH, addTrace_addTrace. unfold subsetPeers at 2.
    now rewrite <- app_assoc.
Qed.

Lemma endpointsLoop_run (e : K8sPool) (eps : list Endpoints) :
  forall (peers : list string) (w : World),
    endpointsLoop e (map endpointsObject eps) peers w =
      (Return (peers ++ endpointsPeers (conf e) eps)%list,
       addTrace w (endpointsEvents (conf e) eps)).
Proof.
  induction eps as [|ep rest IH]; intros peers w; simpl.
  - unfold ret. now rewrite addTrace_nil, app_nil_r.
  - unfold bind at 1. simpl. unfold bind at 1. simpl.
    unfold bind at 1. rewrite subsetsLoop_run.
    rewrite IH, addTrace_addTrace.
    now rewrite <- app_assoc.
Qed.

Lemma updatePeersFromEndpoints_run (e : K8sPool) (inf : SharedIndexInformer)
    (eps : list Endpoints) (f : UpdateFunc) (w : World) :
  informer e = Some inf ->
  infStore inf = map endpointsObject eps ->
  OnUpdate (conf e) = Some f ->
  updatePeersFromEndpoints e w =
    (Return tt,
     {| app := f (endpointsPeers (conf e) eps) (app w);
        trace := (trace w ++ endpointsBuildLog (conf e) eps
                          ++ [CallOnUpdate (endpointsPeers (conf e) eps)])%list |}).
Proof.
  intros Hinf Hstore Hf.
  unfold updatePeersFromEndpoints, storeList, logDebugf, bind.
  rewrite emit_run, Hinf. simpl. rewrite Hstore, endpointsLoop_run.
  unfold callOnUpdate. rewrite Hf. simpl.
  unfold endpointsBuildLog. simpl.
  now rewrite <- !app_assoc.
Qed.

(** The builders' own logger calls contain no callback call. *)
Lemma onUpdateCalls_podsBuildLog (c : Config) (pods : list Pod) :
  onUpdateCalls (podsBuildLog c pods) = [].
Proof.
  unfold podsBuildLog. simpl.
  induction pods as [|p rest IH]; simpl; [reflexivity|].
  rewrite onUpdateCalls_app, IH. unfold podEvents. now destruct (podReady p).
Qed.

Lemma onUpdateCalls_endpointsBuildLog (c : Config) (eps : list Endpoints) :
  onUpdateCalls (endpointsBuildLog c eps) = [].
Proof.
  unfold endpointsBuildLog, endpointsEvents. simpl.
  induction eps as [|ep rest IH]; simpl; [reflexivity|].
  rewrite onUpdateCalls_app, IH, app_nil_r.
  induction (Subsets ep) as [|s ss IHs]; simpl; [reflexivity|].
  rewrite onUpdateCalls_app, IHs, app_nil_r.
  unfold subsetEvents. induction (Addresses s) as [|a l IHa]; simpl; auto.
Qed.

(** The endpoints peer list is the list of (subset, address) pairs, each
    formatted. *)
Lemma endpointsPeers_pairs (c : Config) (eps : list Endpoints) :
  endpointsPeers c eps =
    map (fun sa => addressPeer c (snd sa)) (subsetAddressPairs eps).
Proof.
  unfold endpointsPeers, subsetAddressPairs.
  induction eps as [|ep rest IH]; simpl; [reflexivity|].
  rewrite map_app, IH. f_equal.
  induction (Subsets ep) as [|s ss IHs]; simpl; [reflexivity|].
  rewrite map_app, IHs. f_equal.
  unfold subsetPeers. now rewrite map_map.
Qed.

(** **** Claims about the builders *)

(** C1.  On a store of pods, [updatePeersFromPods] returns normally and calls
    [OnUpdate] once, with the formatted addresses [scheme://PodIP:port] of
    exactly those pods all of whose container statuses are ready and carry
    a running state, in store order: a pod is kept if and only if every one
    of its container statuses passes, so one failing status excludes the
    pod, and a pod without container statuses is kept. *)
Theorem pods_builder_keeps_exactly_ready_pods
    (e : K8sPool) (inf : SharedIndexInformer) (pods : list Pod)
    (f : UpdateFunc) (w : World) :
  informer e = Some inf ->
  infStore inf = map podObject pods ->
  OnUpdate (conf e) = Some f ->
  exists (peers : list string) (w' : World),
    updatePeersFromPods e w = (Return tt, w') /\
    onUpdateCalls (trace w') = (onUpdateCalls (trace w) ++ [peers])%list /\
    app w' = f peers (app w) /\
    peers = map (fun p => fmt.Sprintf_peer (PeerScheme (conf e)) (PodIP (Status p))
                                           (PeerPort (conf e)))
                (filter podReady pods) /\
    (forall p, podReady p = true <->
               Forall statusPasses (ContainerStatuses (Status p))) /\
    (forall p status, In status (ContainerStatuses (Status p)) ->
                      ~ statusPasses status -> podReady p = false) /\
    (forall p, ContainerStatuses (Status p) = [] -> podReady p = true).
Proof.
  intros Hinf Hstore Hf.
  exists (podPeers (conf e) pods).
  eexists. split; [apply (updatePeersFromPods_run e inf pods f w Hinf Hstore Hf)|].
  cbn [trace app]. repeat split.
  - rewrite !onUpdateCalls_app, onUpdateCalls_podsBuildLog. reflexivity.
  - apply podReady_iff.
  - apply podReady_iff.
  - intros p status Hin Hfail.
    destruct (podReady p) eqn:Hready; [|reflexivity].
    apply podReady_iff in Hready. rewrite Forall_forall in Hready.
    exfalso. apply Hfail. now apply Hready.
  - intros p Hnil. apply podReady_iff. rewrite Hnil. constructor.
Qed.

(** C2.  On a store of endpoints objects, [updatePeersFromEndpoints] returns
    normally and calls [OnUpdate] once, with one formatted address
    [scheme://IP:port] for every (subset, address) pair of the stored
    objects, in store order, and nothing else; no address is filtered
    out. *)
Theorem endpoints_builder_lists_every_address
    (e : K8sPool) (inf : SharedIndexInformer) (eps : list Endpoints)
    (f : UpdateFunc) (w : World) :
  informer e = Some inf ->
  infStore inf = map endpointsObject eps ->
  OnUpdate (conf e) = Some f ->
  exists (peers : list string) (w' : World),
    updatePeersFromEndpoints e w = (Return tt, w') /\
    onUpdateCalls (trace w') = (onUpdateCalls (trace w) ++ [peers])%list /\
    app w' = f peers (app w) /\
    peers = map (fun sa => fmt.Sprintf_peer (PeerScheme (conf e)) (IP (snd sa))
                                            (PeerPort (conf e)))
                (subsetAddressPairs eps) /\
    List.length peers = List.length (subsetAddressPairs eps).
Proof.
  intros Hinf Hstore Hf.
  exists (endpointsPeers (conf e) eps).
  eexists. split; [apply (updatePeersFromEndpoints_run e inf eps f w Hinf Hstore Hf)|].
  cbn [trace app]. repeat split.
  - rewrite !onUpdateCalls_app, onUpdateCalls_endpointsBuildLog. reflexivity.
  - apply endpointsPeers_pairs.
  - rewrite endpointsPeers_pairs. apply length_map.
Qed.

(** C10.  A pod whose container statuses all pass is kept by the pods
    builder with its [PodIP] as recorded: when that address is the empty
    string the peer list handed to [OnUpdate] contains [scheme://:port],
    with an empty host. *)
Theorem pods_builder_keeps_empty_address
    (e : K8sPool) (inf : SharedIndexInformer) (pods : list Pod) (p : Pod)
    (f : UpdateFunc) (w : World) :
  informer e = Some inf ->
  infStore inf = map podObject pods ->
  OnUpdate (conf e) = Some f ->
  In p pods ->
  Forall statusPasses (ContainerStatuses (Status p)) ->
  PodIP (Status p) = "" ->
  exists (peers : list string) (w' : World),
    updatePeersFromPods e w = (Return tt, w') /\
    onUpdateCalls (trace w') = (onUpdateCalls (trace w) ++ [peers])%list /\
    In (PeerScheme (conf e) ++ "://:" ++ fmt.itoa (PeerPort (conf e))) peers.
Proof.
  intros Hinf Hstore Hf Hin Hpass Hip.
  exists (podPeers (conf e) pods).
  eexists. split; [apply (updatePeersFromPods_run e inf pods f w Hinf Hstore Hf)|].
  cbn [trace app]. split.
  - rewrite !onUpdateCalls_app, onUpdateCalls_podsBuildLog. reflexivity.
  - unfold podPeers. apply in_map_iff. exists p. split.
    + unfold podPeer, fmt.Sprintf_peer. rewrite Hip. reflexivity.
    + apply filter_In. split; [assumption|]. now apply podReady_iff.
Qed.

(** **** The builders do not depend on the world they run in *)

Lemma stateless_ret {A} (a : A) : stateless (ret a).
Proof.
  exists (Return a), [], (fun x => x). intros [a0 tr]. unfold ret. simpl.
  now rewrite app_nil_r.
Qed.

Lemma stateless_panic {A} (reason : string) : stateless (@panic A reason).
Proof.
  exists (Panic reason), [], (fun x => x). intros [a0 tr]. unfold panic. simpl.
  now rewrite app_nil_r.
Qed.

Lemma stateless_emit (ev : Event) : stateless (emit ev).
Proof. exists (Return tt), [ev], (fun x => x). reflexivity. Qed.

Lemma stateless_bind {A B} (m : M A) (k : A -> M B) :
  stateless m -> (forall a, stateless (k a)) -> stateless (bind m k).
Proof.
  intros (r & evs & g & Hm) Hk. destruct r as [a|reason].
  - destruct (Hk a) as (r' & evs' & g' & Hka).
    exists r', (evs ++ evs')%list, (fun x => g' (g x)). intros w.
    unfold bind. rewrite Hm, Hka. simpl. now rewrite app_assoc.
  - exists (Panic reason), evs, g. intros w. unfold bind. now rewrite Hm.
Qed.

Lemma stateless_deref {A} (p : option A) : stateless (deref p).
Proof. destruct p; [apply stateless_ret | apply stateless_panic]. Qed.

Lemma stateless_callOnUpdate (e : K8sPool) (peers : list string) :
  stateless (callOnUpdate e peers).
Proof.
  unfold callOnUpdate. destruct (OnUpdate (conf e)) as [f|].
  - exists (Return tt), [CallOnUpdate peers], (f peers). reflexivity.
  - apply stateless_panic.
Qed.

Create HintDb stateless.

Local Hint Resolve stateless_ret stateless_panic stateless_emit
  stateless_deref stateless_callOnUpdate : stateless.

Lemma stateless_containersLoop (e : K8sPool) (peer : string)
    (statuses : list ContainerStatus) :
  stateless (containersLoop e peer statuses).
Proof.
  induction statuses as [|status rest IH]; simpl; auto with stateless.
  destruct (notReady status); [|exact IH].
  apply stateless_bind; unfold logDebugf; auto with stateless.
Qed.

Lemma stateless_podsLoop (e : K8sPool) (objs : list object) :
  forall peers, stateless (podsLoop e objs peers).
Proof.
  induction objs as [|obj rest IH]; intros peers; simpl; auto with stateless.
  destruct (assertPod obj) as [pod ok].
  apply stateless_bind.
  - destruct ok; simpl; auto with stateless.
    apply stateless_bind; unfold reflectTypeString, logErrorf; auto with stateless.
  - intros _. apply stateless_bind; auto with stateless.
    intros p. apply stateless_bind; [apply stateless_containersLoop|].
    intros [|]; [|apply IH].
    apply stateless_bind; unfold logDebugf; auto with stateless.
Qed.

Lemma stateless_updatePeersFromPods (e : K8sPool) :
  stateless (updatePeersFromPods e).
Proof.
  unfold updatePeersFromPods, logDebugf, storeList.
  apply stateless_bind; auto with stateless. intros _.
  apply stateless_bind.
  - apply stateless_bind; auto with stateless.
  - intros objs. apply stateless_bind; [apply stateless_podsLoop|].
    auto with stateless.
Qed.

Lemma stateless_addressesLoop (e : K8sPool) (addrs : list EndpointAddress) :
  forall peers, stateless (addressesLoop e addrs peers).
Proof.
  induction addrs as [|addr rest IH]; intros peers; simpl; auto with stateless.
  apply stateless_bind; unfold logDebugf; auto with stateless.
Qed.

Lemma stateless_subsetsLoop (e : K8sPool) (subsets : list EndpointSubset) :
  forall peers, stateless (subsetsLoop e subsets peers).
Proof.
  induction subsets as [|s rest IH]; intros peers; simpl; auto with stateless.
  apply stateless_bind; [apply stateless_addressesLoop | auto].
Qed.

Lemma stateless_endpointsLoop (e : K8sPool) (objs : list object) :
  forall peers, stateless (endpointsLoop e objs peers).
Proof.
  induction objs as [|obj rest IH]; intros peers; simpl; auto with stateless.
  destruct (assertEndpoints obj) as [endpoint ok].
  apply stateless_bind.
  - destruct ok; simpl; auto with stateless.
    apply stateless_bind; unfold reflectTypeString, logErrorf; auto with stateless.
  - intros _. apply stateless_bind; auto with stateless.
    intros ep. apply stateless_bind; [apply stateless_subsetsLoop | auto].
Qed.

Lemma stateless_updatePeersFromEndpoints (e : K8sPool) :
  stateless (updatePeersFromEndpoints e).
Proof.
  unfold updatePeersFromEndpoints, logDebugf, storeList.
  apply stateless_bind; auto with stateless. intros _.
  apply stateless_bind.
  - apply stateless_bind; auto with stateless.
  - intros objs. apply stateless_bind; [apply stateless_endpointsLoop|].
    auto with stateless.
Qed.

(** Running a stateless computation again, from the world the first run
    left, gives the same outcome and appends the same events. *)
Lemma stateless_twice {A} (m : M A) (w : World) :
  stateless m ->
  fst (m (snd (m w))) = fst (m w) /\
  exists evs : list Event,
    trace (snd (m w)) = (trace w ++ evs)%list /\
    trace (snd (m (snd (m w)))) = (trace (snd (m w)) ++ evs)%list.
Proof.
  intros (r & evs & g & Hm). rewrite !Hm. simpl. split; [reflexivity|].
  exists evs. split; reflexivity.
Qed.

(** **** A store entry of another type *)

(** One turn of the pods loop on a pod. *)
Lemma podsLoop_cons_pod (e : K8sPool) (p : Pod) (rest : list object)
    (peers : list string) (w : World) :
  podsLoop e (PodObject (Some p) :: rest) peers w =
    podsLoop e rest (peers ++ (if podReady p then [podPeer (conf e) p] else []))%list
             (addTrace w (podEvents (conf e) p)).
Proof.
  simpl. unfold bind at 1. simpl. unfold bind at 1. simpl.
  unfold bind at 1. rewrite containersLoop_run. cbv zeta.
  unfold podEvents. fold (podReady p). fold (podPeer (conf e) p).
  destruct (podReady p); simpl.
  - rewrite addTrace_nil. unfold bind at 1. unfold logDebugf. now rewrite emit_run.
  - now rewrite app_nil_r.
Qed.

(** From the first entry on that is not a pod, the pods loop ends in a nil
    dereference; nothing it did before was a callback call. *)
Lemma podsLoop_foreign_object (e : K8sPool) (objs : list object) :
  forall (peers : list string) (w : World),
    (exists obj, In obj objs /\ snd (assertPod obj) = false) ->
    exists w',
      podsLoop e objs peers w = (Panic nilDeref, w') /\
      onUpdateCalls (trace w') = onUpdateCalls (trace w) /\
      app w' = app w.
Proof.
  induction objs as [|obj rest IH]; intros peers w (bad & Hin & Hbad).
  - destruct Hin.
  - destruct obj as [|[p|]|ep|ty].
    + exists w. repeat split.
    + assert (Hrest : exists o, In o rest /\ snd (assertPod o) = false).
      { destruct Hin as [<-|Hin]; [discriminate Hbad|]. now exists bad. }
      rewrite podsLoop_cons_pod.
      destruct (IH (peers ++ (if podReady p then [podPeer (conf e) p] else []))%list
                   (addTrace w (podEvents (conf e) p)) Hrest)
        as (w' & Hrun & Hcalls & Happ).
      exists w'. rewrite Hrun. repeat split.
      * rewrite Hcalls. simpl. rewrite onUpdateCalls_app.
        unfold podEvents. destruct (podReady p); simpl; now rewrite app_nil_r.
      * rewrite Happ. reflexivity.
    + exists w. repeat split.
    + eexists. simpl. unfold bind. simpl. split; [reflexivity|].
      simpl. rewrite onUpdateCalls_app. simpl. now rewrite app_nil_r.
    + eexists. simpl. unfold bind. simpl. split; [reflexivity|].
      simpl. rewrite onUpdateCalls_app. simpl. now rewrite app_nil_r.
Qed.

Lemma onUpdateCalls_subsetEvents (c : Config) (subsets : list EndpointSubset) :
  onUpdateCalls (flat_map (subsetEvents c) subsets) = [].
Proof.
  induction subsets as [|s ss IHs]; simpl; [reflexivity|].
  rewrite onUpdateCalls_app, IHs, app_nil_r.
  unfold subsetEvents. induction (Addresses s) as [|a l IHa]; simpl; auto.
Qed.

Lemma endpointsLoop_foreign_object (e : K8sPool) (objs : list object) :
  forall (peers : list string) (w : World),
    (exists obj, In obj objs /\ snd (assertEndpoints obj) = false) ->
    exists w',
      endpointsLoop e objs peers w = (Panic nilDeref, w') /\
      onUpdateCalls (trace w') = onUpdateCalls (trace w) /\
      app w' = app w.
Proof.
  induction objs as [|obj rest IH]; intros peers w (bad & Hin & Hbad).
  - destruct Hin.
  - destruct obj as [|p|[ep|]|ty].
    + exists w. repeat split.
    + eexists. simpl. unfold bind. simpl. split; [reflexivity|].
      simpl. rewrite onUpdateCalls_app. simpl. now rewrite app_nil_r.
    + assert (Hrest : exists o, In o rest /\ snd (assertEndpoints o) = false).
      { destruct Hin as [<-|Hin]; [discriminate Hbad|]. now exists bad. }
      simpl. unfold bind. simpl. rewrite subsetsLoop_run.
      destruct (IH (peers ++ flat_map (subsetPeers (conf e)) (Subsets ep))%list
                   (addTrace w (flat_map (subsetEvents (conf e)) (Subsets ep))) Hrest)
        as (w' & Hrun & Hcalls & Happ).
      exists w'. rewrite Hrun. repeat split.
      * rewrite Hcalls. simpl.
        now rewrite onUpdateCalls_app, onUpdateCalls_subsetEvents, app_nil_r.
      * rewrite Happ. reflexivity.
    + exists w. repeat split.
    + eexists. simpl. unfold bind. simpl. split; [reflexivity|].
      simpl. rewrite onUpdateCalls_app. simpl. now rewrite app_nil_r.
Qed.

(** Whatever else the store holds, one entry that fails the type assertion
    makes the rebuild end in a nil dereference before [OnUpdate] is
    called. *)
Lemma builders_panic_on_foreign_object (e : K8sPool) (inf : SharedIndexInformer)
    (w : World) :
  informer e = Some inf ->
  ((exists obj, In obj (infStore inf) /\ snd (assertPod obj) = false) ->
   exists w', updatePeersFromPods e w = (Panic nilDeref, w') /\
              onUpdateCalls (trace w') = onUpdateCalls (trace w) /\
              app w' = app w) /\
  ((exists obj, In obj (infStore inf) /\ snd (assertEndpoints obj) = false) ->
   exists w', updatePeersFromEndpoints e w = (Panic nilDeref, w') /\
              onUpdateCalls (trace w') = onUpdateCalls (trace w) /\
              app w' = app w).
Proof.
  intros Hinf. split; intros Hbad.
  - unfold updatePeersFromPods, storeList, logDebugf, bind.
    rewrite emit_run, Hinf. simpl.
    destruct (podsLoop_foreign_object e (infStore inf) []
                (addTrace w [CallDebugf "Fetching peer list from pods API"]) Hbad)
      as (w' & Hrun & Hcalls & Happ).
    exists w'. rewrite Hrun. repeat split; [|assumption].
    rewrite Hcalls. simpl. rewrite onUpdateCalls_app. simpl. now rewrite app_nil_r.
  - unfold updatePeersFromEndpoints, storeList, logDebugf, bind.
    rewrite emit_run, Hinf. simpl.
    destruct (endpointsLoop_foreign_object e (infStore inf) []
                (addTrace w [CallDebugf "Fetching peer list from endpoints API"]) Hbad)
      as (w' & Hrun & Hcalls & Happ).
    exists w'. rewrite Hrun. repeat split; [|assumption].
    rewrite Hcalls. simpl. rewrite onUpdateCalls_app. simpl. now rewrite app_nil_r.
Qed.

(** **** The event handlers *)

(** What a handler does with a notification, for any [updateFunc]: the
    debug line, and then either [updateFunc], run once, or the error
    line. *)
Lemma handle_run (e : K8sPool) (updateFunc : M unit) (n : notification)
    (w : World) :
  handle e updateFunc n w =
    match MetaNamespaceKeyFunc (keyedObject n) with
    | (key, None) =>
        updateFunc (addTrace w
          [CallDebugf ("Queue (" ++ kindWord n ++ ") '" ++ key ++ "' - <nil>")])
    | (key, Some err) =>
        (Return tt,
         addTrace w
           [CallDebugf ("Queue (" ++ kindWord n ++ ") '" ++ key ++ "' - " ++ err);
            CallErrorf ("while calling MetaNamespaceKeyFunc(): " ++ err)])
    end.
Proof.
  destruct n as [obj|old new|obj]; simpl;
    unfold handlerAddFunc, handlerUpdateFunc, handlerDeleteFunc;
    match goal with
    | |- context [MetaNamespaceKeyFunc ?o] =>
        destruct (MetaNamespaceKeyFunc o) as [key [err|]]
    end;
    unfold bind, logDebugf, logErrorf; rewrite ?emit_run, ?addTrace_addTrace;
    reflexivity.
Qed.

Lemma fits_pods (objs : list object) :
  forallb (fits UpdatePeersFromPods) objs = true ->
  exists pods, objs = map podObject pods.
Proof.
  induction objs as [|obj rest IH]; simpl; intros H.
  - now exists [].
  - apply andb_true_iff in H. destruct H as [Hobj Hrest].
    destruct (IH Hrest) as (pods & ->).
    destruct obj as [|[p|]|ep|ty]; try discriminate Hobj.
    now exists (p :: pods).
Qed.

Lemma fits_endpoints (objs : list object) :
  forallb (fits UpdatePeersFromEndpoints) objs = true ->
  exists eps, objs = map endpointsObject eps.
Proof.
  induction objs as [|obj rest IH]; simpl; intros H.
  - now exists [].
  - apply andb_true_iff in H. destruct H as [Hobj Hrest].
    destruct (IH Hrest) as (eps & ->).
    destruct obj as [|p|[ep|]|ty]; try discriminate Hobj.
    now exists (ep :: eps).
Qed.

Lemma errorfCalls_podsBuildLog (c : Config) (pods : list Pod) :
  errorfCalls (podsBuildLog c pods) = [].
Proof.
  unfold podsBuildLog. simpl.
  induction pods as [|p rest IH]; simpl; [reflexivity|].
  rewrite errorfCalls_app, IH. unfold podEvents. now destruct (podReady p).
Qed.

Lemma errorfCalls_endpointsBuildLog (c : Config) (eps : list Endpoints) :
  errorfCalls (endpointsBuildLog c eps) = [].
Proof.
  unfold endpointsBuildLog, endpointsEvents. simpl.
  induction eps as [|ep rest IH]; simpl; [reflexivity|].
  rewrite errorfCalls_app, IH, app_nil_r.
  induction (Subsets ep) as [|s ss IHs]; simpl; [reflexivity|].
  rewrite errorfCalls_app, IHs, app_nil_r.
  unfold subsetEvents. induction (Addresses s) as [|a l IHa]; simpl; auto.
Qed.

(** The registered builder on a store that fits it: it returns, having
    called [OnUpdate] once and [Errorf] not at all. *)
Lemma callUpdateFunc_run (r : updateFuncRef) (e : K8sPool)
    (inf : SharedIndexInformer) (f : UpdateFunc) (w : World) :
  informer e = Some inf ->
  forallb (fits r) (infStore inf) = true ->
  OnUpdate (conf e) = Some f ->
  exists (peers : list string) (w' : World),
    callUpdateFunc r e w = (Return tt, w') /\
    onUpdateCalls (trace w') = (onUpdateCalls (trace w) ++ [peers])%list /\
    errorfCalls (trace w') = errorfCalls (trace w) /\
    app w' = f peers (app w).
Proof.
  intros Hinf Hfits Hf. destruct r; simpl.
  - destruct (fits_pods _ Hfits) as (pods & Hstore).
    exists (podPeers (conf e) pods). eexists.
    split; [apply (updatePeersFromPods_run e inf pods f w Hinf Hstore Hf)|].
    cbn [trace app]. repeat split.
    + rewrite !onUpdateCalls_app, onUpdateCalls_podsBuildLog. reflexivity.
    + rewrite !errorfCalls_app, errorfCalls_podsBuildLog. simpl.
      now rewrite app_nil_r.
  - destruct (fits_endpoints _ Hfits) as (eps & Hstore).
    exists (endpointsPeers (conf e) eps). eexists.
    split; [apply (updatePeersFromEndpoints_run e inf eps f w Hinf Hstore Hf)|].
    cbn [trace app]. repeat split.
    + rewrite !onUpdateCalls_app, onUpdateCalls_endpointsBuildLog. reflexivity.
    + rewrite !errorfCalls_app, errorfCalls_endpointsBuildLog. simpl.
      now rewrite app_nil_r.
Qed.

(** C3.  A running worker whose store, once brought to [objs], fits the
    registered builder hands the notification [n] to its handler.  The
    handler runs the [updateFunc] it captured exactly once when
    [MetaNamespaceKeyFunc] gives no error, and not at all when it gives
    one, whatever [updateFunc] is.  Accordingly the delivery returns
    normally; with a key it calls [OnUpdate] exactly once and logs no
    error, whatever the notification and the store are; without a key it
    logs the error, calls nothing, leaves the application state alone; and
    in both cases the worker goes on with the notifications that follow. *)
Theorem notification_dispatched_once
    (e : K8sPool) (inf : SharedIndexInformer) (r : updateFuncRef)
    (f : UpdateFunc) (objs : list object) (n : notification)
    (rest : list (list object * notification)) (w : World) :
  informer e = Some inf ->
  infHandler inf = Some r ->
  infStarted inf = true ->
  done e = ChanOpen ->
  OnUpdate (conf e) = Some f ->
  forallb (fits r) objs = true ->
  let e' := setInformer e (setStore inf objs) in
  (forall (updateFunc : M unit) (w0 : World),
      handle e' updateFunc n w0 =
        match MetaNamespaceKeyFunc (keyedObject n) with
        | (key, None) =>
            updateFunc (addTrace w0
              [CallDebugf ("Queue (" ++ kindWord n ++ ") '" ++ key ++ "' - <nil>")])
        | (key, Some err) =>
            (Return tt,
             addTrace w0
               [CallDebugf ("Queue (" ++ kindWord n ++ ") '" ++ key ++ "' - " ++ err);
                CallErrorf ("while calling MetaNamespaceKeyFunc(): " ++ err)])
        end) /\
  exists w' : World,
    deliver e objs n w = (Return e', w') /\
    match snd (MetaNamespaceKeyFunc (keyedObject n)) with
    | None =>
        exists peers : list string,
          onUpdateCalls (trace w') = (onUpdateCalls (trace w) ++ [peers])%list /\
          errorfCalls (trace w') = errorfCalls (trace w) /\
          app w' = f peers (app w)
    | Some err =>
        onUpdateCalls (trace w') = onUpdateCalls (trace w) /\
        errorfCalls (trace w') =
          (errorfCalls (trace w)
             ++ [("while calling MetaNamespaceKeyFunc(): " ++ err)%string])%list /\
        app w' = app w
    end /\
    worker e ((objs, n) :: rest) w = worker e' rest w'.
Proof.
  intros Hinf Hhandler Hstarted Hdone Hf Hfits e'.
  split; [intros updateFunc w0; apply handle_run|].
  assert (Hrunning : workerRunning e = true).
  { unfold workerRunning. now rewrite Hinf, Hdone. }
  assert (Hdeliver : forall w', handle e' (callUpdateFunc r e') n w = (Return tt, w') ->
                                deliver e objs n w = (Return e', w')).
  { intros w' Hh. unfold deliver. rewrite Hinf, Hhandler. fold e'.
    unfold bind. now rewrite Hh. }
  assert (Hworker : forall w', deliver e objs n w = (Return e', w') ->
                               worker e ((objs, n) :: rest) w = worker e' rest w').
  { intros w' Hd. simpl. rewrite Hrunning. unfold bind. now rewrite Hd. }
  pose proof (handle_run e' (callUpdateFunc r e') n w) as Hh.
  destruct (MetaNamespaceKeyFunc (keyedObject n)) as [key [err|]]; cbn [snd].
  - eexists. split; [apply Hdeliver, Hh|]. split.
    + cbn [trace app addTrace]. repeat split.
      * rewrite onUpdateCalls_app. simpl. now rewrite app_nil_r.
      * rewrite errorfCalls_app. reflexivity.
    + apply Hworker, Hdeliver, Hh.
  - destruct (callUpdateFunc_run r e' (setStore inf objs) f
                (addTrace w [CallDebugf ("Queue (" ++ kindWord n ++ ") '" ++ key ++ "' - <nil>")]))
      as (peers & w' & Hrun & Hcalls & Herrs & Happ); try reflexivity; try assumption.
    rewrite Hrun in Hh.
    exists w'. split; [apply Hdeliver, Hh|]. split.
    + exists peers. repeat split.
      * rewrite Hcalls. cbn [trace addTrace]. rewrite onUpdateCalls_app. simpl.
        now rewrite app_nil_r.
      * rewrite Herrs. cbn [trace addTrace]. rewrite errorfCalls_app. simpl.
        now rewrite app_nil_r.
      * rewrite Happ. reflexivity.
    + apply Hworker, Hdeliver, Hh.
Qed.

(** **** Lifecycle *)

Lemma worker_stopped (e : K8sPool) (ns : list (list object * notification))
    (w : World) :
  workerRunning e = false -> worker e ns w = (Return e, w).
Proof.
  intros Hstopped. destruct ns as [|[objs n] rest]; simpl; [reflexivity|].
  now rewrite Hstopped.
Qed.

Lemma startGenericWatch_timeout (e : K8sPool) (objT : objType)
    (listWatch : ListWatch) (updateFunc : updateFuncRef) (w : World) :
  done e = ChanOpen ->
  WaitForCacheSync ChanOpen (watchInformer objT listWatch updateFunc) = false ->
  startGenericWatch e objT listWatch updateFunc w =
    (Return (setDone (setInformer e (watchInformer objT listWatch updateFunc))
                     ChanClosed,
             Some syncTimeout),
     addTrace w [GoInformerRun; CloseDone]).
Proof.
  intros Hdone Hsync. unfold startGenericWatch, bind. rewrite emit_run.
  cbn [done setInformer]. rewrite Hdone. fold (watchInformer objT listWatch updateFunc).
  rewrite Hsync. cbn [negb]. unfold closeDone. cbn [done setInformer]. rewrite Hdone.
  unfold bind. rewrite emit_run. unfold ret. now rewrite addTrace_addTrace.
Qed.

Lemma startGenericWatch_synced (e : K8sPool) (objT : objType)
    (listWatch : ListWatch) (updateFunc : updateFuncRef) (w : World) :
  WaitForCacheSync (done e) (watchInformer objT listWatch updateFunc) = true ->
  startGenericWatch e objT listWatch updateFunc w =
    (Return (setInformer e (synced (watchInformer objT listWatch updateFunc)), None),
     addTrace w [GoInformerRun]).
Proof.
  intros Hsync. unfold startGenericWatch, bind. rewrite emit_run.
  cbn [done setInformer]. fold (watchInformer objT listWatch updateFunc).
  rewrite Hsync. reflexivity.
Qed.

Lemma start_endpoints (e : K8sPool) :
  Mechanism (conf e) = "" \/ Mechanism (conf e) = WatchEndpoints ->
  start e = startGenericWatch e EndpointsType (endpointsListWatch (conf e))
                              UpdatePeersFromEndpoints.
Proof.
  intros [H|H]; unfold start; rewrite H; reflexivity.
Qed.

Lemma start_pods (e : K8sPool) :
  Mechanism (conf e) = WatchPods ->
  start e = startGenericWatch e PodType (podListWatch (conf e)) UpdatePeersFromPods.
Proof.
  intros H. unfold start. rewrite H. reflexivity.
Qed.

Lemma start_unknown (e : K8sPool) (w : World) :
  Mechanism (conf e) <> "" ->
  Mechanism (conf e) <> WatchEndpoints ->
  Mechanism (conf e) <> WatchPods ->
  start e w =
    (Return (e, Some ("unknown value for watch mechanism: " ++ Mechanism (conf e))), w).
Proof.
  intros H1 H2 H3. unfold start.
  apply String.eqb_neq in H1, H2, H3. now rewrite H1, H2, H3.
Qed.

Lemma withDefaults_fields (c : Config) :
  Mechanism (withDefaults c) = Mechanism c /\
  Namespace (withDefaults c) = Namespace c /\
  Selector (withDefaults c) = Selector c /\
  OnUpdate (withDefaults c) = OnUpdate c /\
  PeerScheme (withDefaults c) = (if (PeerScheme c =? "")%string then "http" else PeerScheme c) /\
  PeerPort (withDefaults c) = (if (PeerPort c =? 0)%Z then 8080%Z else PeerPort c).
Proof.
  unfold withDefaults.
  destruct (ConfigLogger c); cbn [PeerScheme PeerPort];
    destruct (PeerScheme c =? "")%string; cbn [PeerScheme PeerPort];
    destruct (PeerPort c =? 0)%Z; repeat split.
Qed.

Lemma New_run (c : Config) (w : World) :
  InClusterConfig = None ->
  NewForConfig = None ->
  New c w = match start (newPool c) w with
            | (Return r, w') => (Return (Some (fst r), snd r), w')
            | (Panic reason, w') => (Panic reason, w')
            end.
Proof.
  intros H1 H2. unfold New. rewrite H1, H2. reflexivity.
Qed.

(** What [start] leaves on a pool with an open done channel and a known
    mechanism: the pool's configuration is untouched and its informer is
    the one built for the mechanism, started, with the handlers added. *)
Lemma start_known (e : K8sPool) (objT : objType) (listWatch : ListWatch)
    (updateFunc : updateFuncRef) (w : World) :
  done e = ChanOpen ->
  exists e' err w',
    startGenericWatch e objT listWatch updateFunc w = (Return (e', err), w') /\
    conf e' = conf e /\
    exists inf, informer e' = Some inf /\
                infObjType inf = objT /\
                infListWatch inf = listWatch /\
                infHandler inf = Some updateFunc /\
                infStarted inf = true.
Proof.
  intros Hdone.
  destruct (WaitForCacheSync ChanOpen (watchInformer objT listWatch updateFunc)) eqn:Hsync.
  - rewrite <- Hdone in Hsync. rewrite startGenericWatch_synced by exact Hsync.
    do 3 eexists. split; [reflexivity|]. split; [reflexivity|].
    eexists. split; [reflexivity|]. repeat split.
  - rewrite startGenericWatch_timeout by assumption.
    do 3 eexists. split; [reflexivity|]. split; [reflexivity|].
    eexists. split; [reflexivity|]. repeat split.
Qed.

(** C6.  Once it has a client, [New] returns a pool whose configuration has
    [PeerScheme] replaced by [http] when it was empty and [PeerPort]
    replaced by 8080 when it was 0, and otherwise equal to the given ones;
    the mechanism, namespace, selector and callback are kept as given.
    With the empty mechanism, as with [endpoints], the informer started is
    the endpoints one with the endpoints builder registered; with [pods] it
    is the pods one. *)
Theorem New_fills_defaults (c : Config) (w : World) :
  InClusterConfig = None ->
  NewForConfig = None ->
  exists e err w',
    New c w = (Return (Some e, err), w') /\
    (PeerScheme c = "" -> PeerScheme (conf e) = "http") /\
    (PeerScheme c <> "" -> PeerScheme (conf e) = PeerScheme c) /\
    (PeerPort c = 0%Z -> PeerPort (conf e) = 8080%Z) /\
    (PeerPort c <> 0%Z -> PeerPort (conf e) = PeerPort c) /\
    Mechanism (conf e) = Mechanism c /\
    Namespace (conf e) = Namespace c /\
    Selector (conf e) = Selector c /\
    OnUpdate (conf e) = OnUpdate c /\
    (Mechanism c = "" \/ Mechanism c = WatchEndpoints ->
     start (newPool c) = startEndpointWatch (newPool c) /\
     exists inf, informer e = Some inf /\
                 infObjType inf = EndpointsType /\
                 infListWatch inf = endpointsListWatch (conf e) /\
                 infHandler inf = Some UpdatePeersFromEndpoints /\
                 infStarted inf = true) /\
    (Mechanism c = WatchPods ->
     start (newPool c) = startPodWatch (newPool c) /\
     exists inf, informer e = Some inf /\
                 infObjType inf = PodType /\
                 infListWatch inf = podListWatch (conf e) /\
                 infHandler inf = Some UpdatePeersFromPods /\
                 infStarted inf = true).
Proof.
  intros Hrest Hclient.
  destruct (withDefaults_fields c) as (Hm & Hns & Hsel & Hcb & Hscheme & Hport).
  assert (Hfields : forall e, conf e = withDefaults c ->
            (PeerScheme c = "" -> PeerScheme (conf e) = "http") /\
            (PeerScheme c <> "" -> PeerScheme (conf e) = PeerScheme c) /\
            (PeerPort c = 0%Z -> PeerPort (conf e) = 8080%Z) /\
            (PeerPort c <> 0%Z -> PeerPort (conf e) = PeerPort c) /\
            Mechanism (conf e) = Mechanism c /\
            Namespace (conf e) = Namespace c /\
            Selector (conf e) = Selector c /\
            OnUpdate (conf e) = OnUpdate c).
  { intros e ->. repeat split; try assumption.
    - intros H. rewrite Hscheme, H. reflexivity.
    - intros H. rewrite Hscheme. apply String.eqb_neq in H. now rewrite H.
    - intros H. rewrite Hport, H. reflexivity.
    - intros H. rewrite Hport. apply Z.eqb_neq in H. now rewrite H. }
  assert (Hknown : forall objT listWatch updateFunc,
            start (newPool c) = startGenericWatch (newPool c) objT listWatch updateFunc ->
            exists e err w',
              (match start (newPool c) w with
               | (Return r, w') => (Return (Some (fst r), snd r), w')
               | (Panic reason, w') => (Panic reason, w')
               end) = (Return (Some e, err), w') /\
              conf e = withDefaults c /\
              exists inf, informer e = Some inf /\
                          infObjType inf = objT /\
                          infListWatch inf = listWatch /\
                          infHandler inf = Some updateFunc /\
                          infStarted inf = true).
  { intros objT listWatch updateFunc Heq. rewrite Heq.
    destruct (start_known (newPool c) objT listWatch updateFunc w eq_refl)
      as (e' & err & w' & Hrun & Hconf & Hinf).
    rewrite Hrun. exists e', err, w'. split; [reflexivity|]. split; assumption. }
  assert (Hmp : Mechanism (conf (newPool c)) = Mechanism c)
    by (cbn [conf newPool]; exact Hm).
  rewrite New_run by assumption.
  destruct (string_dec (Mechanism c) "") as [He|He];
    [|destruct (string_dec (Mechanism c) WatchEndpoints) as [Hep|Hep]];
    [| |destruct (string_dec (Mechanism c) WatchPods) as [Hp|Hp]].
  - assert (Hk : Mechanism (conf (newPool c)) = "" \/
                 Mechanism (conf (newPool c)) = WatchEndpoints)
      by (left; congruence).
    destruct (Hknown _ _ _ (start_endpoints _ Hk))
      as (e' & err & w' & Hrun & Hconf & inf & Hi & Ht & Hlw & Hh & Hs).
    exists e', err, w'. split; [exact Hrun|].
    destruct (Hfields e' Hconf) as (F1 & F2 & F3 & F4 & F5 & F6 & F7 & F8).
    do 8 (split; [assumption|]). split.
    + intros _. split; [exact (start_endpoints _ Hk)|].
      exists inf. rewrite Hconf. now repeat split.
    + intros Hbad. rewrite He in Hbad. discriminate Hbad.
  - assert (Hk : Mechanism (conf (newPool c)) = "" \/
                 Mechanism (conf (newPool c)) = WatchEndpoints)
      by (right; congruence).
    destruct (Hknown _ _ _ (start_endpoints _ Hk))
      as (e' & err & w' & Hrun & Hconf & inf & Hi & Ht & Hlw & Hh & Hs).
    exists e', err, w'. split; [exact Hrun|].
    destruct (Hfields e' Hconf) as (F1 & F2 & F3 & F4 & F5 & F6 & F7 & F8).
    do 8 (split; [assumption|]). split.
    + intros _. split; [exact (start_endpoints _ Hk)|].
      exists inf. rewrite Hconf. now repeat split.
    + intros Hbad. rewrite Hep in Hbad. discriminate Hbad.
  - assert (Hk : Mechanism (conf (newPool c)) = WatchPods) by congruence.
    destruct (Hknown _ _ _ (start_pods _ Hk))
      as (e' & err & w' & Hrun & Hconf & inf & Hi & Ht & Hlw & Hh & Hs).
    exists e', err, w'. split; [exact Hrun|].
    destruct (Hfields e' Hconf) as (F1 & F2 & F3 & F4 & F5 & F6 & F7 & F8).
    do 8 (split; [assumption|]). split.
    + intros [Hbad|Hbad]; rewrite Hp in Hbad; discriminate Hbad.
    + intros _. split; [exact (start_pods _ Hk)|].
      exists inf. rewrite Hconf. now repeat split.
  - rewrite start_unknown by congruence.
    do 3 eexists. split; [reflexivity|]. cbn [fst].
    destruct (Hfields (newPool c) eq_refl) as (F1 & F2 & F3 & F4 & F5 & F6 & F7 & F8).
    do 8 (split; [assumption|]). split.
    + intros [Hbad|Hbad]; contradiction.
    + intros Hbad; contradiction.
Qed.

(** C8.  [Close] on a pool whose done channel is open cancels the watch
    context and closes the channel.  Nothing in [Close] looks at the state
    of the pool first: called again on the pool it left, it cancels again
    and then panics on closing the closed channel, and the panic is not
    recovered. *)
Theorem Close_is_single_use (e : K8sPool) (w : World) :
  done e = ChanOpen ->
  exists e1,
    Close e w = (Return e1, addTrace w [CallWatchCancel; CloseDone]) /\
    cancelled (watchCtx e1) = true /\
    done e1 = ChanClosed /\
    lifecycle e1 = Lifecycle.Closed /\
    forall w1,
      Close e1 w1 = (Panic "close of closed channel", addTrace w1 [CallWatchCancel]).
Proof.
  intros Hdone.
  exists (setDone (setWatchCtx e {| cancelled := true |}) ChanClosed).
  split.
  - unfold Close, closeDone, bind. rewrite emit_run. cbn [done setWatchCtx].
    rewrite Hdone. rewrite emit_run. unfold ret. now rewrite addTrace_addTrace.
  - repeat split.
Qed.

(** C9.  For a mechanism that is neither empty nor [endpoints] nor [pods],
    [start] returns the error naming it and does nothing else: the pool is
    as it was and no event is added to the trace.  [New] on a configuration
    with such a mechanism returns an error in every case and adds nothing
    to the trace; a pool it returns has no informer, so its worker handles
    no notification and the callback is never called. *)
Theorem unknown_mechanism_rejected (m : WatchMechanism) :
  m <> "" ->
  m <> WatchEndpoints ->
  m <> WatchPods ->
  (forall e w,
      Mechanism (conf e) = m ->
      start e w = (Return (e, Some ("unknown value for watch mechanism: " ++ m)), w)) /\
  (forall c w,
      Mechanism c = m ->
      exists p err,
        New c w = (Return (p, Some err), w) /\
        (InClusterConfig = None -> NewForConfig = None ->
         p = Some (newPool c) /\ err = "unknown value for watch mechanism: " ++ m) /\
        forall e, p = Some e ->
                  informer e = None /\
                  workerRunning e = false /\
                  forall ns w0, worker e ns w0 = (Return e, w0)).
Proof.
  intros H1 H2 H3. split.
  - intros e w Hm. rewrite start_unknown by congruence. now rewrite Hm.
  - intros c w Hm. unfold New.
    destruct InClusterConfig as [err1|].
    { do 2 eexists. split; [reflexivity|]. split; [discriminate|]. discriminate. }
    destruct NewForConfig as [err2|].
    { do 2 eexists. split; [reflexivity|]. split; [intros _; discriminate|]. discriminate. }
    fold (newPool c). unfold bind.
    assert (Hmp : Mechanism (conf (newPool c)) = m).
    { cbn [conf newPool]. destruct (withDefaults_fields c) as (-> & _). exact Hm. }
    rewrite start_unknown by congruence. cbn [fst snd]. rewrite Hmp.
    do 2 eexists. split; [reflexivity|]. split; [now intros _ _|].
    intros e [= <-]. repeat split.
    intros ns w0. now apply worker_stopped.
Qed.

(** **** Strings *)

Lemma string_append_assoc (a b c : string) : (a ++ b) ++ c = a ++ b ++ c.
Proof.
  induction a as [|ch a IH]; simpl; [reflexivity|]. now rewrite IH.
Qed.

Lemma string_append_inv_head (p a b : string) : p ++ a = p ++ b -> a = b.
Proof.
  induction p as [|ch p IH]; simpl; intros H; [exact H|].
  injection H as H. now apply IH.
Qed.

Lemma list_ascii_of_string_append (a b : string) :
  list_ascii_of_string (a ++ b) = (list_ascii_of_string a ++ list_ascii_of_string b)%list.
Proof.
  induction a as [|ch a IH]; simpl; [reflexivity|]. now rewrite IH.
Qed.

Lemma string_append_inv_tail (a b t : string) : a ++ t = b ++ t -> a = b.
Proof.
  intros H. apply (f_equal list_ascii_of_string) in H.
  rewrite !list_ascii_of_string_append in H. apply app_inv_tail in H.
  rewrite <- (string_of_list_ascii_of_string a), <- (string_of_list_ascii_of_string b).
  now rewrite H.
Qed.

(** For one scheme and port, different hosts give different peers. *)
Lemma Sprintf_peer_inj_host (scheme h1 h2 : string) (port : Z) :
  fmt.Sprintf_peer scheme h1 port = fmt.Sprintf_peer scheme h2 port -> h1 = h2.
Proof.
  unfold fmt.Sprintf_peer. intros H.
  apply string_append_inv_head in H. apply string_append_inv_head in H.
  now apply string_append_inv_tail in H.
Qed.

Lemma NoDup_map_injective {A B} (f : A -> B) (l : list A) :
  (forall x y, f x = f y -> x = y) -> NoDup l -> NoDup (map f l).
Proof.
  intros Hinj Hl. induction Hl as [|x l Hnotin Hl IH]; simpl; constructor.
  - intros Hin. apply in_map_iff in Hin. destruct Hin as (y & Hy & Hin).
    apply Hinj in Hy. subst y. contradiction.
  - exact IH.
Qed.

(** **** The peer list as a function of the store *)

Lemma storePeers_pods (c : Config) (pods : list Pod) :
  storePeers UpdatePeersFromPods c (map podObject pods) = podPeers c pods.
Proof.
  unfold storePeers, podPeers.
  induction pods as [|p rest IH]; simpl; [reflexivity|].
  rewrite IH. now destruct (podReady p).
Qed.

Lemma storePeers_endpoints (c : Config) (eps : list Endpoints) :
  storePeers UpdatePeersFromEndpoints c (map endpointsObject eps) = endpointsPeers c eps.
Proof.
  unfold storePeers, endpointsPeers.
  induction eps as [|ep rest IH]; simpl; [reflexivity|]. now rewrite IH.
Qed.

(** The registered builder on a store that fits it hands [OnUpdate] the
    peers of the store, and logs no error. *)
Lemma callUpdateFunc_peers (r : updateFuncRef) (e : K8sPool)
    (inf : SharedIndexInformer) (f : UpdateFunc) (w : World) :
  informer e = Some inf ->
  forallb (fits r) (infStore inf) = true ->
  OnUpdate (conf e) = Some f ->
  exists w' : World,
    callUpdateFunc r e w = (Return tt, w') /\
    onUpdateCalls (trace w') =
      (onUpdateCalls (trace w) ++ [storePeers r (conf e) (infStore inf)])%list /\
    errorfCalls (trace w') = errorfCalls (trace w) /\
    app w' = f (storePeers r (conf e) (infStore inf)) (app w).
Proof.
  intros Hinf Hfits Hf. destruct r; simpl.
  - destruct (fits_pods _ Hfits) as (pods & Hstore).
    eexists. split; [apply (updatePeersFromPods_run e inf pods f w Hinf Hstore Hf)|].
    rewrite Hstore, storePeers_pods. cbn [trace app]. repeat split.
    + rewrite !onUpdateCalls_app, onUpdateCalls_podsBuildLog. reflexivity.
    + rewrite !errorfCalls_app, errorfCalls_podsBuildLog. simpl. now rewrite app_nil_r.
  - destruct (fits_endpoints _ Hfits) as (eps & Hstore).
    eexists. split; [apply (updatePeersFromEndpoints_run e inf eps f w Hinf Hstore Hf)|].
    rewrite Hstore, storePeers_endpoints. cbn [trace app]. repeat split.
    + rewrite !onUpdateCalls_app, onUpdateCalls_endpointsBuildLog. reflexivity.
    + rewrite !errorfCalls_app, errorfCalls_endpointsBuildLog. simpl. now rewrite app_nil_r.
Qed.

Lemma withStore_informer (e : K8sPool) (inf : SharedIndexInformer) (objs : list object) :
  informer e = Some inf ->
  informer (withStore e objs) = Some (setStore inf objs) /\
  conf (withStore e objs) = conf e /\
  log (withStore e objs) = log e /\
  done (withStore e objs) = done e /\
  watchCtx (withStore e objs) = watchCtx e.
Proof.
  intros Hinf. unfold withStore. rewrite Hinf. repeat split.
Qed.

(** **** Further properties of the builders and the handlers *)

(** X1.  Whatever the notification is (add, update or delete, and whatever
    objects it carries), as long as its key computes, the handler calls
    [OnUpdate] once with the complete peer list of the store as it is then:
    the list is a function of the store and the configuration, never a
    difference computed from the notification. *)
Theorem handler_hands_over_store_peers
    (e : K8sPool) (inf : SharedIndexInformer) (r : updateFuncRef)
    (f : UpdateFunc) (n : notification) (w : World) :
  informer e = Some inf ->
  forallb (fits r) (infStore inf) = true ->
  OnUpdate (conf e) = Some f ->
  keyed n = true ->
  exists w' : World,
    handle e (callUpdateFunc r e) n w = (Return tt, w') /\
    onUpdateCalls (trace w') =
      (onUpdateCalls (trace w) ++ [storePeers r (conf e) (infStore inf)])%list /\
    app w' = f (storePeers r (conf e) (infStore inf)) (app w).
Proof.
  intros Hinf Hfits Hf Hkey. rewrite handle_run. unfold keyed in Hkey.
  destruct (MetaNamespaceKeyFunc (keyedObject n)) as [key [err|]];
    cbn [snd] in Hkey; [discriminate Hkey|].
  destruct (callUpdateFunc_peers r e inf f
              (addTrace w [CallDebugf ("Queue (" ++ kindWord n ++ ") '" ++ key ++ "' - <nil>")])
              Hinf Hfits Hf) as (w' & Hrun & Hcalls & _ & Happ).
  exists w'. split; [exact Hrun|]. split.
  - rewrite Hcalls. cbn [trace addTrace]. rewrite onUpdateCalls_app. simpl.
    now rewrite app_nil_r.
  - exact Happ.
Qed.

(** X2.  The peer list of a store that is the concatenation of two stores
    is the concatenation of their peer lists: each entry contributes its
    peers independently of the others, in store order. *)
Theorem builders_distribute_over_store
    (e : K8sPool) (inf : SharedIndexInformer) (r : updateFuncRef)
    (f : UpdateFunc) (objs1 objs2 : list object) (w : World) :
  informer e = Some inf ->
  OnUpdate (conf e) = Some f ->
  forallb (fits r) objs1 = true ->
  forallb (fits r) objs2 = true ->
  exists (l1 l2 : list string) (w1 w2 w12 : World),
    callUpdateFunc r (withStore e objs1) w = (Return tt, w1) /\
    onUpdateCalls (trace w1) = (onUpdateCalls (trace w) ++ [l1])%list /\
    callUpdateFunc r (withStore e objs2) w = (Return tt, w2) /\
    onUpdateCalls (trace w2) = (onUpdateCalls (trace w) ++ [l2])%list /\
    callUpdateFunc r (withStore e (objs1 ++ objs2)) w = (Return tt, w12) /\
    onUpdateCalls (trace w12) = (onUpdateCalls (trace w) ++ [(l1 ++ l2)%list])%list.
Proof.
  intros Hinf Hf Hfits1 Hfits2.
  assert (Hrun : forall objs, forallb (fits r) objs = true ->
            exists w', callUpdateFunc r (withStore e objs) w = (Return tt, w') /\
                       onUpdateCalls (trace w') =
                         (onUpdateCalls (trace w) ++ [storePeers r (conf e) objs])%list).
  { intros objs Hfits.
    destruct (withStore_informer e inf objs Hinf) as (Hi & Hc & _).
    destruct (callUpdateFunc_peers r (withStore e objs) (setStore inf objs) f w Hi)
      as (w' & Hrun & Hcalls & _); [exact Hfits | now rewrite Hc |].
    exists w'. split; [exact Hrun|]. rewrite Hcalls, Hc. reflexivity. }
  destruct (Hrun objs1 Hfits1) as (w1 & H1 & C1).
  destruct (Hrun objs2 Hfits2) as (w2 & H2 & C2).
  destruct (Hrun (objs1 ++ objs2)%list) as (w12 & H12 & C12).
  { rewrite forallb_app, Hfits1, Hfits2. reflexivity. }
  exists (storePeers r (conf e) objs1), (storePeers r (conf e) objs2), w1, w2, w12.
  repeat split; try assumption.
  rewrite C12. unfold storePeers. now rewrite flat_map_app.
Qed.

(** X3.  When the ready pods of the store have pairwise different addresses,
    the peer list the pods builder hands over has no duplicate: formatting
    with one scheme and one port keeps different hosts apart. *)
Theorem pods_builder_distinct_addresses
    (e : K8sPool) (inf : SharedIndexInformer) (pods : list Pod)
    (f : UpdateFunc) (w : World) :
  informer e = Some inf ->
  infStore inf = map podObject pods ->
  OnUpdate (conf e) = Some f ->
  NoDup (map (fun p => PodIP (Status p)) (filter podReady pods)) ->
  exists (peers : list string) (w' : World),
    updatePeersFromPods e w = (Return tt, w') /\
    onUpdateCalls (trace w') = (onUpdateCalls (trace w) ++ [peers])%list /\
    NoDup peers.
Proof.
  intros Hinf Hstore Hf Hnodup.
  exists (podPeers (conf e) pods).
  eexists. split; [apply (updatePeersFromPods_run e inf pods f w Hinf Hstore Hf)|].
  cbn [trace app]. split.
  - rewrite !onUpdateCalls_app, onUpdateCalls_podsBuildLog. reflexivity.
  - unfold podPeers, podPeer.
    rewrite <- (map_map (fun p => PodIP (Status p))
                        (fun ip => fmt.Sprintf_peer (PeerScheme (conf e)) ip (PeerPort (conf e)))).
    apply NoDup_map_injective; [|exact Hnodup].
    intros x y. apply Sprintf_peer_inj_host.
Qed.

(** X4.  The same for the endpoints builder: when the addresses of the
    (subset, address) pairs are pairwise different, the peer list has no
    duplicate. *)
Theorem endpoints_builder_distinct_addresses
    (e : K8sPool) (inf : SharedIndexInformer) (eps : list Endpoints)
    (f : UpdateFunc) (w : World) :
  informer e = Some inf ->
  infStore inf = map endpointsObject eps ->
  OnUpdate (conf e) = Some f ->
  NoDup (map (fun sa => IP (snd sa)) (subsetAddressPairs eps)) ->
  exists (peers : list string) (w' : World),
    updatePeersFromEndpoints e w = (Return tt, w') /\
    onUpdateCalls (trace w') = (onUpdateCalls (trace w) ++ [peers])%list /\
    NoDup peers.
Proof.
  intros Hinf Hstore Hf Hnodup.
  exists (endpointsPeers (conf e) eps).
  eexists. split; [apply (updatePeersFromEndpoints_run e inf eps f w Hinf Hstore Hf)|].
  cbn [trace app]. split.
  - rewrite !onUpdateCalls_app, onUpdateCalls_endpointsBuildLog. reflexivity.
  - rewrite endpointsPeers_pairs. unfold addressPeer.
    rewrite <- (map_map (fun sa : EndpointSubset * EndpointAddress => IP (snd sa))
                        (fun ip => fmt.Sprintf_peer (PeerScheme (conf e)) ip (PeerPort (conf e)))).
    apply NoDup_map_injective; [|exact Hnodup].
    intros x y. apply Sprintf_peer_inj_host.
Qed.

(** X5.  When every pod of the store has a container status that does not
    pass (and so also when the store is empty), the pods builder still calls
    [OnUpdate], once, with the empty list: there is no guard against
    handing over an empty peer list. *)
Theorem pods_builder_none_ready
    (e : K8sPool) (inf : SharedIndexInformer) (pods : list Pod)
    (f : UpdateFunc) (w : World) :
  informer e = Some inf ->
  infStore inf = map podObject pods ->
  OnUpdate (conf e) = Some f ->
  (forall p, In p pods ->
             exists status, In status (ContainerStatuses (Status p)) /\
                            ~ statusPasses status) ->
  exists w' : World,
    updatePeersFromPods e w = (Return tt, w') /\
    onUpdateCalls (trace w') = (onUpdateCalls (trace w) ++ [[]])%list /\
    app w' = f [] (app w).
Proof.
  intros Hinf Hstore Hf Hnone.
  assert (Hempty : podPeers (conf e) pods = []).
  { unfold podPeers. replace (filter podReady pods) with (@nil Pod); [reflexivity|].
    symmetry. clear Hstore. induction pods as [|p rest IH]; simpl; [reflexivity|].
    destruct (podReady p) eqn:Hready.
    - exfalso. destruct (Hnone p (or_introl eq_refl)) as (status & Hin & Hfail).
      apply podReady_iff in Hready. rewrite Forall_forall in Hready.
      apply Hfail. now apply Hready.
    - apply IH. intros q Hq. apply Hnone. now right. }
  eexists. split; [apply (updatePeersFromPods_run e inf pods f w Hinf Hstore Hf)|].
  cbn [trace app]. rewrite Hempty. split; [|reflexivity].
  rewrite !onUpdateCalls_app, onUpdateCalls_podsBuildLog. reflexivity.
Qed.

(** Both builders on a store that fits them, up to the callback call. *)
Lemma updatePeersFromPods_upto_callback (e : K8sPool) (inf : SharedIndexInformer)
    (pods : list Pod) (w : World) :
  informer e = Some inf ->
  infStore inf = map podObject pods ->
  updatePeersFromPods e w =
    callOnUpdate e (podPeers (conf e) pods) (addTrace w (podsBuildLog (conf e) pods)).
Proof.
  intros Hinf Hstore.
  unfold updatePeersFromPods, storeList, logDebugf, bind.
  rewrite emit_run, Hinf. simpl. rewrite Hstore, podsLoop_run.
  now rewrite addTrace_addTrace.
Qed.

Lemma updatePeersFromEndpoints_upto_callback (e : K8sPool) (inf : SharedIndexInformer)
    (eps : list Endpoints) (w : World) :
  informer e = Some inf ->
  infStore inf = map endpointsObject eps ->
  updatePeersFromEndpoints e w =
    callOnUpdate e (endpointsPeers (conf e) eps)
                 (addTrace w (endpointsBuildLog (conf e) eps)).
Proof.
  intros Hinf Hstore.
  unfold updatePeersFromEndpoints, storeList, logDebugf, bind.
  rewrite emit_run, Hinf. simpl. rewrite Hstore, endpointsLoop_run.
  now rewrite addTrace_addTrace.
Qed.

(** X6.  With no [OnUpdate] in the configuration, a rebuild on a store that
    fits the builder builds its list and then panics on calling the nil
    func: no callback call is recorded and the application state is
    untouched. *)
Theorem builders_panic_without_callback
    (e : K8sPool) (inf : SharedIndexInformer) (r : updateFuncRef) (w : World) :
  informer e = Some inf ->
  forallb (fits r) (infStore inf) = true ->
  OnUpdate (conf e) = None ->
  exists w' : World,
    callUpdateFunc r e w = (Panic nilDeref, w') /\
    onUpdateCalls (trace w') = onUpdateCalls (trace w) /\
    errorfCalls (trace w') = errorfCalls (trace w) /\
    app w' = app w.
Proof.
  intros Hinf Hfits Hf. destruct r; cbn [callUpdateFunc].
  - destruct (fits_pods _ Hfits) as (pods & Hstore).
    rewrite (updatePeersFromPods_upto_callback e inf pods w Hinf Hstore).
    unfold callOnUpdate. rewrite Hf. unfold panic. eexists. split; [reflexivity|].
    cbn [trace app addTrace]. repeat split.
    + rewrite onUpdateCalls_app, onUpdateCalls_podsBuildLog. now rewrite app_nil_r.
    + rewrite errorfCalls_app, errorfCalls_podsBuildLog. now rewrite app_nil_r.
  - destruct (fits_endpoints _ Hfits) as (eps & Hstore).
    rewrite (updatePeersFromEndpoints_upto_callback e inf eps w Hinf Hstore).
    unfold callOnUpdate. rewrite Hf. unfold panic. eexists. split; [reflexivity|].
    cbn [trace app addTrace]. repeat split.
    + rewrite onUpdateCalls_app, onUpdateCalls_endpointsBuildLog. now rewrite app_nil_r.
    + rewrite errorfCalls_app, errorfCalls_endpointsBuildLog. now rewrite app_nil_r.
Qed.

(** **** Further properties of the lifecycle *)

(** What [start] does on a pool whose done channel is open, by the
    mechanism and by the answer of [WaitForCacheSync]. *)
Lemma start_run (e : K8sPool) (w : World) :
  done e = ChanOpen ->
  start e w =
    match mechanismInformer (conf e) with
    | None =>
        (Return (e, Some ("unknown value for watch mechanism: " ++ Mechanism (conf e))), w)
    | Some inf =>
        if WaitForCacheSync ChanOpen inf then
          (Return (setInformer e (synced inf), None), addTrace w [GoInformerRun])
        else
          (Return (setDone (setInformer e inf) ChanClosed, Some syncTimeout),
           addTrace w [GoInformerRun; CloseDone])
    end.
Proof.
  intros Hdone. unfold start, mechanismInformer, startEndpointWatch, startPodWatch.
  fold (endpointsListWatch (conf e)). fold (podListWatch (conf e)).
  destruct ((Mechanism (conf e) =? "")%string || (Mechanism (conf e) =? WatchEndpoints)%string).
  - destruct (WaitForCacheSync ChanOpen
                (watchInformer EndpointsType (endpointsListWatch (conf e))
                               UpdatePeersFromEndpoints)) eqn:Hsync.
    + apply startGenericWatch_synced. now rewrite Hdone.
    + now apply startGenericWatch_timeout.
  - destruct (Mechanism (conf e) =? WatchPods)%string; [|reflexivity].
    destruct (WaitForCacheSync ChanOpen
                (watchInformer PodType (podListWatch (conf e)) UpdatePeersFromPods)) eqn:Hsync.
    + apply startGenericWatch_synced. now rewrite Hdone.
    + now apply startGenericWatch_timeout.
Qed.

Lemma mechanismInformer_fields (c : Config) (inf : SharedIndexInformer) :
  mechanismInformer c = Some inf ->
  infStarted inf = true /\ infHasSynced inf = false /\
  lwNamespace (infListWatch inf) = Namespace c /\
  lwLabelSelector (infListWatch inf) = Selector c /\
  lwResource (infListWatch inf) = infObjType inf /\
  infHandler inf = Some (match infObjType inf with
                         | PodType => UpdatePeersFromPods
                         | EndpointsType => UpdatePeersFromEndpoints
                         end).
Proof.
  unfold mechanismInformer.
  destruct ((Mechanism c =? "")%string || (Mechanism c =? WatchEndpoints)%string);
    [|destruct (Mechanism c =? WatchPods)%string; [|discriminate]];
    intros [= <-]; repeat split.
Qed.

(** What [New] does once it has a client. *)
Lemma New_with_client (c : Config) (w : World) :
  InClusterConfig = None ->
  NewForConfig = None ->
  New c w =
    match mechanismInformer (withDefaults c) with
    | None =>
        (Return (Some (newPool c),
                 Some ("unknown value for watch mechanism: " ++ Mechanism c)), w)
    | Some inf =>
        if WaitForCacheSync ChanOpen inf then
          (Return (Some (setInformer (newPool c) (synced inf)), None),
           addTrace w [GoInformerRun])
        else
          (Return (Some (setDone (setInformer (newPool c) inf) ChanClosed),
                   Some syncTimeout),
           addTrace w [GoInformerRun; CloseDone])
    end.
Proof.
  intros Hrest Hclient. rewrite New_run by assumption.
  rewrite start_run by reflexivity. cbn [conf newPool].
  destruct (mechanismInformer (withDefaults c)) as [inf|].
  - now destruct (WaitForCacheSync ChanOpen inf).
  - cbn [fst snd]. now destruct (withDefaults_fields c) as (-> & _).
Qed.

Lemma withDefaults_scheme_port (c : Config) :
  PeerScheme (withDefaults c) <> "" /\ PeerPort (withDefaults c) <> 0%Z /\
  ConfigLogger (withDefaults c) <> None.
Proof.
  unfold withDefaults.
  destruct (ConfigLogger c) eqn:Hl; cbn [PeerScheme PeerPort ConfigLogger];
    destruct (PeerScheme c =? "")%string eqn:Hs; cbn [PeerScheme PeerPort ConfigLogger];
    destruct (PeerPort c =? 0)%Z eqn:Hp; cbn [PeerScheme PeerPort ConfigLogger];
    repeat split;
    try (apply String.eqb_neq; exact Hs); try (apply Z.eqb_neq; exact Hp);
    try discriminate; try (rewrite Hl; discriminate).
Qed.

(** X7.  [New] never panics, and the pool it returns is nil exactly when
    the cluster configuration or the client could not be had; then the
    error wraps the cause, the first failure wins, and nothing else has
    happened (no informer was started, whatever the configuration).  In
    every other case a pool is returned, also together with an error. *)
Theorem New_returns_nil_only_without_client (c : Config) (w : World) :
  exists p err w',
    New c w = (Return (p, err), w') /\
    (p = None <-> InClusterConfig <> None \/ NewForConfig <> None) /\
    (forall cause, InClusterConfig = Some cause ->
                   err = Some ("Failed to get k8s rest config: " ++ cause) /\ w' = w) /\
    (forall cause, InClusterConfig = None -> NewForConfig = Some cause ->
                   err = Some ("Failed to create k8s client: " ++ cause) /\ w' = w).
Proof.
  destruct InClusterConfig as [cause1|] eqn:Hrest.
  - unfold New. rewrite Hrest. do 3 eexists. split; [reflexivity|]. split; [|split].
    + split; [intros _; left; discriminate | reflexivity].
    + intros cause [= <-]. split; reflexivity.
    + intros cause Hbad. discriminate Hbad.
  - destruct NewForConfig as [cause2|] eqn:Hclient.
    + unfold New. rewrite Hrest, Hclient. do 3 eexists. split; [reflexivity|]. split; [|split].
      * split; [intros _; right; discriminate | reflexivity].
      * intros cause Hbad. discriminate Hbad.
      * intros cause _ [= <-]. split; reflexivity.
    + rewrite New_with_client by assumption.
      destruct (mechanismInformer (withDefaults c)) as [inf|];
        [destruct (WaitForCacheSync ChanOpen inf)|];
        do 3 eexists; (split; [reflexivity|]); (split; [|split]);
        try (split; [discriminate | intros [H|H]; now contradiction H]);
        try (intros cause Hbad; discriminate Hbad);
        try (intros cause _ Hbad; discriminate Hbad).
Qed.

(** X8.  Every pool [New] returns, with or without an error, has a
    non-empty peer scheme, a non-zero peer port and a logger, which is the
    one in its configuration; its watch context is not cancelled. *)
Theorem New_pool_invariants (c : Config) (w : World) (e : K8sPool)
    (err : option fmt.error) (w' : World) :
  New c w = (Return (Some e, err), w') ->
  PeerScheme (conf e) <> "" /\
  PeerPort (conf e) <> 0%Z /\
  ConfigLogger (conf e) = Some (log e) /\
  cancelled (watchCtx e) = false.
Proof.
  intros Hnew.
  assert (Hpool : conf e = withDefaults c /\ log e = log (newPool c) /\
                  watchCtx e = watchCtx (newPool c)).
  { destruct InClusterConfig as [cause1|] eqn:Hrest;
      [unfold New in Hnew; rewrite Hrest in Hnew; discriminate Hnew|].
    destruct NewForConfig as [cause2|] eqn:Hclient;
      [unfold New in Hnew; rewrite Hrest, Hclient in Hnew; discriminate Hnew|].
    rewrite New_with_client in Hnew by assumption.
    destruct (mechanismInformer (withDefaults c)) as [inf|];
      [destruct (WaitForCacheSync ChanOpen inf)|];
      injection Hnew as <- _ _; repeat split. }
  destruct Hpool as (Hconf & Hlog & Hctx).
  destruct (withDefaults_scheme_port c) as (Hs & Hp & Hl).
  rewrite Hconf, Hlog, Hctx. repeat split; try assumption.
  cbn [log newPool]. destruct (ConfigLogger (withDefaults c)); [reflexivity|].
  now contradiction Hl.
Qed.



Lemma Close_run (e : K8sPool) (w : World) :
  done e = ChanOpen ->
  Close e w =
    (Return (setDone (setWatchCtx e {| cancelled := true |}) ChanClosed),
     addTrace w [CallWatchCancel; CloseDone]).
Proof.
  intros Hdone. unfold Close, closeDone, bind. rewrite emit_run.
  cbn [done setWatchCtx]. rewrite Hdone, emit_run. unfold ret.
  now rewrite addTrace_addTrace.
Qed.

(** X9.  Of a pool [New] returns, the error is nil exactly when the
    subscription is running, and exactly when its worker runs; and then the
    done channel is open and the informer lists and watches with the
    namespace and label selector of the configuration. *)
Theorem New_error_iff_not_running (c : Config) (w : World) (e : K8sPool)
    (err : option fmt.error) (w' : World) :
  New c w = (Return (Some e, err), w') ->
  (err = None <-> lifecycle e = Lifecycle.Running) /\
  (err = None <-> workerRunning e = true) /\
  (err = None ->
   done e = ChanOpen /\
   exists inf, informer e = Some inf /\
               lwNamespace (infListWatch inf) = Namespace c /\
               lwLabelSelector (infListWatch inf) = Selector c).
Proof.
  intros Hnew.
  destruct InClusterConfig as [cause1|] eqn:Hrest;
    [unfold New in Hnew; rewrite Hrest in Hnew; discriminate Hnew|].
  destruct NewForConfig as [cause2|] eqn:Hclient;
    [unfold New in Hnew; rewrite Hrest, Hclient in Hnew; discriminate Hnew|].
  rewrite New_with_client in Hnew by assumption.
  destruct (mechanismInformer (withDefaults c)) as [inf|] eqn:Hmech;
    [destruct (WaitForCacheSync ChanOpen inf)|];
    injection Hnew as <- <- <-.
  - destruct (mechanismInformer_fields _ _ Hmech) as (Hstarted & _ & Hns & Hsel & _).
    destruct (withDefaults_fields c) as (_ & Hns' & Hsel' & _).
    split; [|split].
    + split; [intros _|reflexivity]. unfold lifecycle. cbn. now rewrite Hstarted.
    + split; [intros _|reflexivity]. unfold workerRunning. cbn. exact Hstarted.
    + intros _. split; [reflexivity|].
      exists (synced inf). split; [reflexivity|].
      cbn. split; congruence.
  - split; [|split]; [split; discriminate | split; discriminate | discriminate].
  - split; [|split]; [split; discriminate | split; discriminate | discriminate].
Qed.

(** X10.  Since [WaitForCacheSync] gives up only on a closed stop channel,
    [start] never closes the done channel of the pool [New] made: every
    pool [New] returns, with or without an error, has its done channel
    open, and the first [Close] on it returns, having cancelled the watch
    context and closed the channel. *)
Theorem Close_after_New_returns (c : Config) (w : World) (e : K8sPool)
    (err : option fmt.error) (w' : World) :
  waitsUntilStopped ->
  New c w = (Return (Some e, err), w') ->
  done e = ChanOpen /\
  forall w1 : World,
    exists e1 : K8sPool,
      Close e w1 = (Return e1, addTrace w1 [CallWatchCancel; CloseDone]) /\
      done e1 = ChanClosed /\
      cancelled (watchCtx e1) = true /\
      workerRunning e1 = false.
Proof.
  intros Hlaw Hnew.
  assert (Hdone : done e = ChanOpen).
  { destruct InClusterConfig as [cause1|] eqn:Hrest;
      [unfold New in Hnew; rewrite Hrest in Hnew; discriminate Hnew|].
    destruct NewForConfig as [cause2|] eqn:Hclient;
      [unfold New in Hnew; rewrite Hrest, Hclient in Hnew; discriminate Hnew|].
    rewrite New_with_client in Hnew by assumption.
    destruct (mechanismInformer (withDefaults c)) as [inf|];
      [destruct (WaitForCacheSync ChanOpen inf) eqn:Hsync|].
    - now injection Hnew as <- _ _.
    - apply Hlaw in Hsync. discriminate Hsync.
    - now injection Hnew as <- _ _. }
  split; [exact Hdone|]. intros w1.
  exists (setDone (setWatchCtx e {| cancelled := true |}) ChanClosed).
  split; [now apply Close_run|]. split; [reflexivity|]. split; [reflexivity|].
  unfold workerRunning. cbn. now destruct (informer e).
Qed.

(** X11.  [Close] on a pool with an open done channel leaves the
    configuration and the informer as they were and stops the worker: no
    notification is handled afterwards, so nothing is logged and [OnUpdate]
    is not called again. *)
Theorem Close_stops_the_worker (e : K8sPool) (w : World) :
  done e = ChanOpen ->
  exists e1 w',
    Close e w = (Return e1, w') /\
    conf e1 = conf e /\
    informer e1 = informer e /\
    workerRunning e1 = false /\
    forall ns w1, worker e1 ns w1 = (Return e1, w1).
Proof.
  intros Hdone.
  exists (setDone (setWatchCtx e {| cancelled := true |}) ChanClosed).
  eexists. split.
  - unfold Close, closeDone, bind. rewrite emit_run. cbn [done setWatchCtx].
    rewrite Hdone, emit_run. reflexivity.
  - assert (Hstopped : workerRunning
              (setDone (setWatchCtx e {| cancelled := true |}) ChanClosed) = false).
    { unfold workerRunning. cbn. now destruct (informer e). }
    repeat split; [exact Hstopped|]. intros ns w1. now apply worker_stopped.
Qed.

Lemma printed_defaultLogger (evs : list Event) :
  printed defaultLogger evs = errorfCalls evs.
Proof.
  induction evs as [|ev rest IH]; [reflexivity|].
  change (printed defaultLogger (ev :: rest))
    with ((match ev with
           | CallDebugf msg => Debugf defaultLogger msg
           | CallErrorf msg => Errorf defaultLogger msg
           | _ => []
           end) ++ printed defaultLogger rest)%list.
  rewrite IH. destruct ev; reflexivity.
Qed.

(** X12.  A pool [New] returns for a configuration without a logger writes,
    of all the logger calls, exactly the messages of the [Errorf] calls, in
    order, and nothing for the [Debugf] calls; with a logger in the
    configuration the pool uses that one. *)
Theorem New_default_logger (c : Config) (w : World) (e : K8sPool)
    (err : option fmt.error) (w' : World) :
  New c w = (Return (Some e, err), w') ->
  (ConfigLogger c = None -> forall evs, printed (log e) evs = errorfCalls evs) /\
  (forall l, ConfigLogger c = Some l -> log e = l).
Proof.
  intros Hnew.
  assert (Hlog : log e = log (newPool c)).
  { destruct InClusterConfig as [cause1|] eqn:Hrest;
      [unfold New in Hnew; rewrite Hrest in Hnew; discriminate Hnew|].
    destruct NewForConfig as [cause2|] eqn:Hclient;
      [unfold New in Hnew; rewrite Hrest, Hclient in Hnew; discriminate Hnew|].
    rewrite New_with_client in Hnew by assumption.
    destruct (mechanismInformer (withDefaults c)) as [inf|];
      [destruct (WaitForCacheSync ChanOpen inf)|];
      injection Hnew as <- _ _; reflexivity. }
  rewrite Hlog. cbn [log newPool]. unfold withDefaults. split.
  - intros Hnone evs. rewrite Hnone.
    cbn [PeerScheme PeerPort ConfigLogger].
    destruct (PeerScheme c =? "")%string; cbn [PeerScheme PeerPort ConfigLogger];
      destruct (PeerPort c =? 0)%Z; cbn [ConfigLogger]; apply printed_defaultLogger.
  - intros l Hsome. rewrite Hsome.
    destruct (PeerScheme c =? "")%string; cbn [PeerScheme PeerPort ConfigLogger];
      destruct (PeerPort c =? 0)%Z; cbn [ConfigLogger]; now rewrite ?Hsome.
Qed.

(** One delivery by the worker, on a store that fits the registered
    builder. *)
Lemma deliver_run (e : K8sPool) (inf : SharedIndexInformer) (r : updateFuncRef)
    (f : UpdateFunc) (objs : list object) (n : notification) (w : World) :
  informer e = Some inf ->
  infHandler inf = Some r ->
  OnUpdate (conf e) = Some f ->
  forallb (fits r) objs = true ->
  exists w' : World,
    deliver e objs n w = (Return (withStore e objs), w') /\
    onUpdateCalls (trace w') =
      (onUpdateCalls (trace w)
       ++ (if keyed n then [storePeers r (conf e) objs] else []))%list.
Proof.
  intros Hinf Hhandler Hf Hfits.
  unfold deliver, withStore, keyed. rewrite Hinf, Hhandler.
  unfold bind. rewrite handle_run.
  destruct (MetaNamespaceKeyFunc (keyedObject n)) as [key [err|]]; cbn [snd].
  - eexists. split; [reflexivity|]. cbn [trace addTrace].
    rewrite onUpdateCalls_app. reflexivity.
  - destruct (callUpdateFunc_peers r (setInformer e (setStore inf objs))
                (setStore inf objs) f
                (addTrace w [CallDebugf ("Queue (" ++ kindWord n ++ ") '" ++ key ++ "' - <nil>")]))
      as (w' & Hrun & Hcalls & _); try reflexivity; try assumption.
    rewrite Hrun. exists w'. split; [reflexivity|].
    rewrite Hcalls. cbn [trace addTrace conf setInformer infStore setStore].
    rewrite onUpdateCalls_app. simpl. now rewrite app_nil_r.
Qed.

(** X13.  A running worker that handles a sequence of notifications, each on
    a store that fits the registered builder, returns normally and has
    called [OnUpdate] once for each notification whose key computes, in
    order, each time with the complete peer list of the store as it was at
    that notification, and not at all for the others. *)
Theorem worker_calls_per_keyed_notification
    (r : updateFuncRef) (f : UpdateFunc)
    (ns : list (list object * notification)) :
  forall (e : K8sPool) (inf : SharedIndexInformer) (w : World),
    informer e = Some inf ->
    infHandler inf = Some r ->
    infStarted inf = true ->
    done e = ChanOpen ->
    OnUpdate (conf e) = Some f ->
    Forall (fun d => forallb (fits r) (fst d) = true) ns ->
    exists (e' : K8sPool) (w' : World),
      worker e ns w = (Return e', w') /\
      onUpdateCalls (trace w') =
        (onUpdateCalls (trace w)
         ++ map (fun d => storePeers r (conf e) (fst d))
                (filter (fun d => keyed (snd d)) ns))%list /\
      conf e' = conf e /\
      done e' = ChanOpen.
Proof.
  induction ns as [|[objs n] rest IH];
    intros e inf w Hinf Hhandler Hstarted Hdone Hf Hfits.
  - exists e, w. simpl. rewrite app_nil_r. repeat split. exact Hdone.
  - inversion Hfits as [|d l Hhead Htail]; subst. cbn [fst] in Hhead.
    destruct (deliver_run e inf r f objs n w Hinf Hhandler Hf Hhead)
      as (w1 & Hdel & Hcalls1).
    destruct (withStore_informer e inf objs Hinf) as (Hi & Hc & _ & Hd & _).
    destruct (IH (withStore e objs) (setStore inf objs) w1) as (e' & w' & Hrun & Hcalls & Hconf & Hdone');
      try assumption; try congruence.
    exists e', w'. split.
    + simpl. unfold workerRunning. rewrite Hinf, Hdone, Hstarted.
      unfold bind. rewrite Hdel. exact Hrun.
    + split; [|split; [congruence|exact Hdone']].
      rewrite Hcalls, Hcalls1, Hc. simpl. cbn [snd fst].
      destruct (keyed n); simpl; now rewrite <- app_assoc.
Qed.

(** **** Two listings of one store *)

(** The registered builder on a pool whose store lists [objs], all of the
    type it asserts. *)
Lemma callUpdateFunc_withStore (r : updateFuncRef) (e : K8sPool)
    (inf : SharedIndexInformer) (f : UpdateFunc) (objs : list object) (w : World) :
  informer e = Some inf ->
  OnUpdate (conf e) = Some f ->
  forallb (fits r) objs = true ->
  exists w' : World,
    callUpdateFunc r (withStore e objs) w = (Return tt, w') /\
    onUpdateCalls (trace w') =
      (onUpdateCalls (trace w) ++ [storePeers r (conf e) objs])%list /\
    app w' = f (storePeers r (conf e) objs) (app w).
Proof.
  intros Hinf Hf Hfits.
  destruct (withStore_informer e inf objs Hinf) as (Hi & Hc & _).
  destruct (callUpdateFunc_peers r (withStore e objs) (setStore inf objs) f w Hi)
    as (w' & Hrun & Hcalls & _ & Happ); [exact Hfits | now rewrite Hc |].
  exists w'. rewrite Hc in Hcalls, Happ. cbn [infStore setStore] in Hcalls, Happ.
  split; [exact Hrun|]. split; [exact Hcalls|exact Happ].
Qed.

Lemma sameStore_fits (r : updateFuncRef) (objs1 objs2 : list object) :
  sameStore objs1 objs2 ->
  forallb (fits r) objs1 = true -> forallb (fits r) objs2 = true.
Proof.
  unfold sameStore. intros Hperm. rewrite !forallb_forall. intros H obj Hin.
  apply H. apply Permutation_in with (l := objs2); [|exact Hin].
  now apply Permutation_sym.
Qed.

Lemma sameStore_storePeers (r : updateFuncRef) (c : Config) (objs1 objs2 : list object) :
  sameStore objs1 objs2 ->
  Permutation (storePeers r c objs1) (storePeers r c objs2).
Proof.
  unfold sameStore, storePeers. intros Hperm. now apply Permutation_flat_map.
Qed.

(** C7.  Either builder, invoked twice on a store that was not modified in
    between and holds objects of its type, returns both times and hands
    [OnUpdate] one peer list each time.  Each list is a function of the
    listing the store gave and of the configuration alone, whatever the
    world the call runs in.  As the two listings hold the same objects but
    need not give them in the same order, the two peer lists have the same
    members with the same multiplicities, in an order that may differ; they
    are identical when the two listings are. *)
Theorem builders_repeatable_up_to_order
    (e : K8sPool) (inf : SharedIndexInformer) (r : updateFuncRef) (f : UpdateFunc)
    (objs1 objs2 : list object) (w1 w2 : World) :
  informer e = Some inf ->
  OnUpdate (conf e) = Some f ->
  forallb (fits r) objs1 = true ->
  sameStore objs1 objs2 ->
  exists (peers1 peers2 : list string) (w1' w2' : World),
    callUpdateFunc r (withStore e objs1) w1 = (Return tt, w1') /\
    onUpdateCalls (trace w1') = (onUpdateCalls (trace w1) ++ [peers1])%list /\
    app w1' = f peers1 (app w1) /\
    callUpdateFunc r (withStore e objs2) w2 = (Return tt, w2') /\
    onUpdateCalls (trace w2') = (onUpdateCalls (trace w2) ++ [peers2])%list /\
    app w2' = f peers2 (app w2) /\
    peers1 = storePeers r (conf e) objs1 /\
    peers2 = storePeers r (conf e) objs2 /\
    Permutation peers1 peers2 /\
    (objs1 = objs2 -> peers1 = peers2).
Proof.
  intros Hinf Hf Hfits1 Hsame.
  pose proof (sameStore_fits r objs1 objs2 Hsame Hfits1) as Hfits2.
  destruct (callUpdateFunc_withStore r e inf f objs1 w1 Hinf Hf Hfits1)
    as (w1' & Hrun1 & Hcalls1 & Happ1).
  destruct (callUpdateFunc_withStore r e inf f objs2 w2 Hinf Hf Hfits2)
    as (w2' & Hrun2 & Hcalls2 & Happ2).
  exists (storePeers r (conf e) objs1), (storePeers r (conf e) objs2), w1', w2'.
  split; [exact Hrun1|]. split; [exact Hcalls1|]. split; [exact Happ1|].
  split; [exact Hrun2|]. split; [exact Hcalls2|]. split; [exact Happ2|].
  split; [reflexivity|]. split; [reflexivity|]. split.
  - now apply sameStore_storePeers.
  - intros ->. reflexivity.
Qed.

(** **** A store entry that fails the assertion *)





Lemma onUpdateCalls_endpointsEvents (c : Config) (eps : list Endpoints) :
  onUpdateCalls (endpointsEvents c eps) = [].
Proof.
  pose proof (onUpdateCalls_endpointsBuildLog c eps) as H.
  unfold endpointsBuildLog in H. exact H.
Qed.

Lemma errorfCalls_endpointsEvents (c : Config) (eps : list Endpoints) :
  errorfCalls (endpointsEvents c eps) = [].
Proof.
  pose proof (errorfCalls_endpointsBuildLog c eps) as H.
  unfold endpointsBuildLog in H. exact H.
Qed.


(** **** Waiting for the first synchronization *)





(** **** The caller in [main.go] *)

(** The configuration, the logger and the context of a pool [New]
    returns. *)
Lemma New_pool_fields (c : Config) (w : World) (e : K8sPool)
    (err : option fmt.error) (w' : World) :
  New c w = (Return (Some e, err), w') ->
  conf e = withDefaults c /\ log e = log (newPool c) /\
  watchCtx e = watchCtx (newPool c).
Proof.
  intros Hnew.
  destruct InClusterConfig as [cause1|] eqn:Hrest;
    [unfold New in Hnew; rewrite Hrest in Hnew; discriminate Hnew|].
  destruct NewForConfig as [cause2|] eqn:Hclient;
    [unfold New in Hnew; rewrite Hrest, Hclient in Hnew; discriminate Hnew|].
  rewrite New_with_client in Hnew by assumption.
  destruct (mechanismInformer (withDefaults c)) as [inf|];
    [destruct (WaitForCacheSync ChanOpen inf)|];
    injection Hnew as <- _ _; repeat split.
Qed.

(** X14.  With the pool [main] builds, an endpoints store that lists the
    process's own address [selfip] gives a peer list that contains
    [http://selfip:port'], where [port'] is the given port, or 8080 when the
    port is 0.  So for a port other than 0 the list contains [localpeer],
    the address [main] registered itself under; for port 0 the entry for
    the own address is different from [localpeer]. *)
Theorem main_localpeer_among_peers
    (namespace selector selfip : string) (port : Z) (onUpdate : UpdateFunc)
    (w : World) (e : K8sPool) (err : option fmt.error) (w' : World)
    (inf : SharedIndexInformer) (eps : list Endpoints) (w1 : World) :
  New (mainConfig namespace selector port onUpdate) w = (Return (Some e, err), w') ->
  informer e = Some inf ->
  (exists s, In (s, {| IP := selfip |}) (subsetAddressPairs eps)) ->
  exists (peers : list string) (w2 : World),
    updatePeersFromEndpoints (withStore e (map endpointsObject eps)) w1 = (Return tt, w2) /\
    onUpdateCalls (trace w2) = (onUpdateCalls (trace w1) ++ [peers])%list /\
    In ("http://" ++ selfip ++ ":" ++ fmt.itoa (if (port =? 0)%Z then 8080%Z else port)) peers /\
    (port <> 0%Z -> In (localpeer selfip port) peers) /\
    (port = 0%Z -> localpeer selfip port <> "http://" ++ selfip ++ ":8080").
Proof.
  intros Hnew Hinf (s0 & Hin).
  destruct (New_pool_fields _ _ _ _ _ Hnew) as (Hconf & _).
  destruct (withDefaults_fields (mainConfig namespace selector port onUpdate))
    as (_ & _ & _ & Hcb & Hscheme & Hport).
  cbn [OnUpdate PeerScheme PeerPort mainConfig] in Hcb, Hscheme, Hport.
  destruct (withStore_informer e inf (map endpointsObject eps) Hinf) as (Hi & Hc & _).
  assert (Hf : OnUpdate (conf (withStore e (map endpointsObject eps))) = Some onUpdate)
    by (rewrite Hc, Hconf; exact Hcb).
  exists (endpointsPeers (conf (withStore e (map endpointsObject eps))) eps).
  eexists. split.
  { apply (updatePeersFromEndpoints_run _ (setStore inf (map endpointsObject eps)) eps
             onUpdate w1 Hi eq_refl Hf). }
  cbn [trace app]. split.
  { rewrite !onUpdateCalls_app, onUpdateCalls_endpointsBuildLog. reflexivity. }
  assert (Hmem : In ("http://" ++ selfip ++ ":"
                     ++ fmt.itoa (if (port =? 0)%Z then 8080%Z else port))
                    (endpointsPeers (conf (withStore e (map endpointsObject eps))) eps)).
  { rewrite endpointsPeers_pairs. apply in_map_iff.
    exists (s0, {| IP := selfip |}). split; [|exact Hin].
    unfold addressPeer, fmt.Sprintf_peer. cbn [snd IP].
    rewrite Hc, Hconf, Hscheme, Hport. reflexivity. }
  split; [exact Hmem|]. split.
  - intros Hnz. apply Z.eqb_neq in Hnz. rewrite Hnz in Hmem. exact Hmem.
  - intros ->. unfold localpeer. intros Heq.
    apply string_append_inv_head in Heq. apply string_append_inv_head in Heq.
    discriminate Heq.
Qed.

End Pool.

Arguments UpdateFunc : clear implicits.
Arguments Config : clear implicits.
Arguments K8sPool : clear implicits.
Arguments World : clear implicits.
Arguments M : clear implicits.
Arguments Return {A} a.
Arguments Panic {A} reason.

(** The scenario wait obeys the law of the client library. *)
Lemma scenarioWait_waitsUntilStopped : waitsUntilStopped scenarioWait.
Proof. intros [|] inf H; [discriminate H | reflexivity]. Qed.

(** ** The scenarios of the specification, run on the code *)

Example pods_scenario_ready :
  updatePeersFromPods
    (podsPool setPeers [podObject (scenarioPod "cache-0" "10.0.0.2" [runningStatus])])
    (scenarioWorld []) =
  (Return tt,
   {| app := ["https://10.0.0.2:443"];
      trace := [CallDebugf "Fetching peer list from pods API";
                CallDebugf ("Peer: https://10.0.0.2:443" ++ fmt.nl);
                CallOnUpdate ["https://10.0.0.2:443"]] |}).
Proof. reflexivity. Qed.

Example pods_scenario_not_ready :
  updatePeersFromPods
    (podsPool setPeers [podObject (scenarioPod "cache-0" "10.0.0.2" [unreadyStatus])])
    (scenarioWorld []) =
  (Return tt,
   {| app := [];
      trace := [CallDebugf "Fetching peer list from pods API";
                CallDebugf ("Skipping peer because it's not ready or not running: "
                            ++ "https://10.0.0.2:443" ++ fmt.nl);
                CallOnUpdate []] |}).
Proof. reflexivity. Qed.

Example pods_scenario_one_of_two_not_ready :
  onUpdateCalls (trace (snd (updatePeersFromPods
    (podsPool setPeers [podObject (scenarioPod "cache-0" "10.0.0.2" [runningStatus; unreadyStatus]);
               podObject (scenarioPod "cache-1" "10.0.0.3" [])])
    (scenarioWorld [])))) = [["https://10.0.0.3:443"]].
Proof. reflexivity. Qed.

Example endpoints_scenario :
  updatePeersFromEndpoints
    (endpointsPool setPeers [endpointsObject (scenarioEndpoints "cache" [["10.0.0.1"]])])
    (scenarioWorld []) =
  (Return tt,
   {| app := ["http://10.0.0.1:9090"];
      trace := [CallDebugf "Fetching peer list from endpoints API";
                CallDebugf ("Peer: http://10.0.0.1:9090" ++ fmt.nl);
                CallOnUpdate ["http://10.0.0.1:9090"]] |}).
Proof. reflexivity. Qed.

(** C1, at the scenario of a pod at 10.0.0.2 with one ready, running
    container, scheme https and port 443. *)
Lemma pods_builder_keeps_exactly_ready_pods_witness :
  informer (podsPool setPeers [podObject (scenarioPod "cache-0" "10.0.0.2" [runningStatus])])
    = Some (scenarioInformer PodType UpdatePeersFromPods
              [podObject (scenarioPod "cache-0" "10.0.0.2" [runningStatus])]) /\
  infStore (scenarioInformer PodType UpdatePeersFromPods
              [podObject (scenarioPod "cache-0" "10.0.0.2" [runningStatus])])
    = map podObject [scenarioPod "cache-0" "10.0.0.2" [runningStatus]] /\
  OnUpdate (conf (podsPool setPeers [podObject (scenarioPod "cache-0" "10.0.0.2" [runningStatus])]))
    = Some setPeers /\
  exists w',
    updatePeersFromPods
      (podsPool setPeers [podObject (scenarioPod "cache-0" "10.0.0.2" [runningStatus])])
      (scenarioWorld []) = (Return tt, w') /\
    onUpdateCalls (trace w') = [["https://10.0.0.2:443"]] /\
    app w' = ["https://10.0.0.2:443"].
Proof.
  split; [reflexivity|]. split; [reflexivity|]. split; [reflexivity|].
  destruct (pods_builder_keeps_exactly_ready_pods
              (podsPool setPeers [podObject (scenarioPod "cache-0" "10.0.0.2" [runningStatus])])
              (scenarioInformer PodType UpdatePeersFromPods
                 [podObject (scenarioPod "cache-0" "10.0.0.2" [runningStatus])])
              [scenarioPod "cache-0" "10.0.0.2" [runningStatus]]
              setPeers (scenarioWorld []) eq_refl eq_refl eq_refl)
    as (peers & w' & Hrun & Hcalls & Happ & Hpeers & _).
  exists w'. split; [exact Hrun|].
  rewrite Hcalls, Happ, Hpeers. split; reflexivity.
Defined.

(** C2, at the scenario of one endpoints object with the single address
    10.0.0.1, scheme http and port 9090. *)
Lemma endpoints_builder_lists_every_address_witness :
  informer (endpointsPool setPeers [endpointsObject (scenarioEndpoints "cache" [["10.0.0.1"]])])
    = Some (scenarioInformer EndpointsType UpdatePeersFromEndpoints
              [endpointsObject (scenarioEndpoints "cache" [["10.0.0.1"]])]) /\
  infStore (scenarioInformer EndpointsType UpdatePeersFromEndpoints
              [endpointsObject (scenarioEndpoints "cache" [["10.0.0.1"]])])
    = map endpointsObject [scenarioEndpoints "cache" [["10.0.0.1"]]] /\
  OnUpdate (conf (endpointsPool setPeers
                    [endpointsObject (scenarioEndpoints "cache" [["10.0.0.1"]])]))
    = Some setPeers /\
  exists w',
    updatePeersFromEndpoints
      (endpointsPool setPeers [endpointsObject (scenarioEndpoints "cache" [["10.0.0.1"]])])
      (scenarioWorld []) = (Return tt, w') /\
    onUpdateCalls (trace w') = [["http://10.0.0.1:9090"]] /\
    app w' = ["http://10.0.0.1:9090"].
Proof.
  split; [reflexivity|]. split; [reflexivity|]. split; [reflexivity|].
  destruct (endpoints_builder_lists_every_address
              (endpointsPool setPeers [endpointsObject (scenarioEndpoints "cache" [["10.0.0.1"]])])
              (scenarioInformer EndpointsType UpdatePeersFromEndpoints
                 [endpointsObject (scenarioEndpoints "cache" [["10.0.0.1"]])])
              [scenarioEndpoints "cache" [["10.0.0.1"]]]
              setPeers (scenarioWorld []) eq_refl eq_refl eq_refl)
    as (peers & w' & Hrun & Hcalls & Happ & Hpeers & _).
  exists w'. split; [exact Hrun|].
  rewrite Hcalls, Happ, Hpeers. split; reflexivity.
Defined.

(** C10, at a ready pod that has no address yet. *)
Lemma pods_builder_keeps_empty_address_witness :
  In (scenarioPod "cache-0" "" [runningStatus])
     [scenarioPod "cache-0" "" [runningStatus]] /\
  Forall statusPasses
         (ContainerStatuses (Status (scenarioPod "cache-0" "" [runningStatus]))) /\
  PodIP (Status (scenarioPod "cache-0" "" [runningStatus])) = "" /\
  exists peers w',
    updatePeersFromPods
      (podsPool setPeers [podObject (scenarioPod "cache-0" "" [runningStatus])])
      (scenarioWorld []) = (Return tt, w') /\
    onUpdateCalls (trace w') = [peers] /\
    In "https://:443" peers.
Proof.
  assert (Hin : In (scenarioPod "cache-0" "" [runningStatus])
                   [scenarioPod "cache-0" "" [runningStatus]])
    by (left; reflexivity).
  assert (Hpass : Forall statusPasses
            (ContainerStatuses (Status (scenarioPod "cache-0" "" [runningStatus])))).
  { repeat constructor. discriminate. }
  split; [exact Hin|]. split; [exact Hpass|]. split; [reflexivity|].
  destruct (pods_builder_keeps_empty_address
              (podsPool setPeers [podObject (scenarioPod "cache-0" "" [runningStatus])])
              (scenarioInformer PodType UpdatePeersFromPods
                 [podObject (scenarioPod "cache-0" "" [runningStatus])])
              [scenarioPod "cache-0" "" [runningStatus]]
              (scenarioPod "cache-0" "" [runningStatus])
              setPeers (scenarioWorld []) eq_refl eq_refl eq_refl Hin Hpass eq_refl)
    as (peers & w' & Hrun & Hcalls & Hmem).
  exists peers, w'. split; [exact Hrun|]. split; [exact Hcalls|exact Hmem].
Defined.





(** C7, counterexample.  Two listings of one store of two ready pods, in
    the two orders the map may give them: both rebuilds return, and the
    peer lists they hand to [OnUpdate] differ. *)
Lemma builders_repeatable_counterexample :
  sameStore [podObject podA; podObject podB] [podObject podB; podObject podA] /\
  updatePeersFromPods (podsPool setPeers [podObject podA; podObject podB])
                      (scenarioWorld [])
    = (Return tt,
       {| app := ["https://10.0.0.2:443"; "https://10.0.0.3:443"];
          trace := [CallDebugf "Fetching peer list from pods API";
                    CallDebugf ("Peer: https://10.0.0.2:443" ++ fmt.nl);
                    CallDebugf ("Peer: https://10.0.0.3:443" ++ fmt.nl);
                    CallOnUpdate ["https://10.0.0.2:443"; "https://10.0.0.3:443"]] |}) /\
  updatePeersFromPods (podsPool setPeers [podObject podB; podObject podA])
                      (scenarioWorld [])
    = (Return tt,
       {| app := ["https://10.0.0.3:443"; "https://10.0.0.2:443"];
          trace := [CallDebugf "Fetching peer list from pods API";
                    CallDebugf ("Peer: https://10.0.0.3:443" ++ fmt.nl);
                    CallDebugf ("Peer: https://10.0.0.2:443" ++ fmt.nl);
                    CallOnUpdate ["https://10.0.0.3:443"; "https://10.0.0.2:443"]] |}) /\
  onUpdateCalls (trace (snd (updatePeersFromPods
      (podsPool setPeers [podObject podA; podObject podB]) (scenarioWorld []))))
  <> onUpdateCalls (trace (snd (updatePeersFromPods
      (podsPool setPeers [podObject podB; podObject podA]) (scenarioWorld [])))).
Proof.
  split; [apply perm_swap|]. split; [reflexivity|]. split; [reflexivity|].
  cbv. discriminate.
Qed.

(** C7, at a store of two ready pods listed in the two orders. *)
Lemma builders_repeatable_up_to_order_witness :
  forallb (fits UpdatePeersFromPods) [podObject podA; podObject podB] = true /\
  sameStore [podObject podA; podObject podB] [podObject podB; podObject podA] /\
  exists (w1' w2' : World Ring),
    updatePeersFromPods (podsPool setPeers [podObject podA; podObject podB])
                        (scenarioWorld []) = (Return tt, w1') /\
    onUpdateCalls (trace w1') = [["https://10.0.0.2:443"; "https://10.0.0.3:443"]] /\
    updatePeersFromPods (podsPool setPeers [podObject podB; podObject podA])
                        w1' = (Return tt, w2') /\
    onUpdateCalls (trace w2') = [["https://10.0.0.2:443"; "https://10.0.0.3:443"];
                                 ["https://10.0.0.3:443"; "https://10.0.0.2:443"]] /\
    Permutation ["https://10.0.0.2:443"; "https://10.0.0.3:443"]
                ["https://10.0.0.3:443"; "https://10.0.0.2:443"].
Proof.
  split; [reflexivity|]. split; [apply perm_swap|].
  destruct (builders_repeatable_up_to_order
              (podsPool setPeers [])
              (scenarioInformer PodType UpdatePeersFromPods [])
              UpdatePeersFromPods setPeers
              [podObject podA; podObject podB] [podObject podB; podObject podA]
              (scenarioWorld [])
              (snd (updatePeersFromPods
                      (podsPool setPeers [podObject podA; podObject podB])
                      (scenarioWorld [])))
              eq_refl eq_refl eq_refl (perm_swap _ _ _))
    as (peers1 & peers2 & w1' & w2' & Hrun1 & Hcalls1 & _ & Hrun2 & Hcalls2 & _
        & Hp1 & Hp2 & Hperm & _).
  exists w1', w2'.
  assert (Hw1 : w1' = snd (updatePeersFromPods
                             (podsPool setPeers [podObject podA; podObject podB])
                             (scenarioWorld []))).
  { change (callUpdateFunc UpdatePeersFromPods
              (withStore (podsPool setPeers []) [podObject podA; podObject podB])
              (scenarioWorld []))
      with (updatePeersFromPods (podsPool setPeers [podObject podA; podObject podB])
              (scenarioWorld [])) in Hrun1.
    rewrite Hrun1. reflexivity. }
  rewrite Hp1 in Hcalls1. rewrite Hp2 in Hcalls2. rewrite Hp1, Hp2 in Hperm.
  split; [exact Hrun1|]. split; [exact Hcalls1|].
  split; [rewrite Hw1; exact Hrun2|]. split; [exact Hcalls2|exact Hperm].
Defined.

(** C3, at an add notification for a ready pod, and at a delete
    notification that carries an object without metadata. *)
Lemma notification_dispatched_once_witness :
  forallb (fits UpdatePeersFromPods)
          [podObject (scenarioPod "cache-0" "10.0.0.2" [runningStatus])] = true /\
  (exists w',
      deliver scenarioKeyFunc (podsPool setPeers [])
              [podObject (scenarioPod "cache-0" "10.0.0.2" [runningStatus])]
              (addNotification (podObject (scenarioPod "cache-0" "10.0.0.2" [runningStatus])))
              (scenarioWorld [])
      = (Return (podsPool setPeers [podObject (scenarioPod "cache-0" "10.0.0.2" [runningStatus])]), w')
      /\ exists peers, onUpdateCalls (trace w') = [peers] /\ errorfCalls (trace w') = []) /\
  (exists w',
      deliver scenarioKeyFunc (podsPool setPeers [podObject (scenarioPod "cache-0" "10.0.0.2" [runningStatus])])
              []
              (deleteNotification (OtherObject "cache.DeletedFinalStateUnknown"))
              (scenarioWorld [])
      = (Return (podsPool setPeers []), w')
      /\ onUpdateCalls (trace w') = []
      /\ errorfCalls (trace w') =
           ["while calling MetaNamespaceKeyFunc(): object has no meta: object does not implement the Object interfaces"]).
Proof.
  split; [reflexivity|]. split.
  - destruct (notification_dispatched_once scenarioKeyFunc (podsPool setPeers [])
                (scenarioInformer PodType UpdatePeersFromPods [])
                UpdatePeersFromPods setPeers
                [podObject (scenarioPod "cache-0" "10.0.0.2" [runningStatus])]
                (addNotification (podObject (scenarioPod "cache-0" "10.0.0.2" [runningStatus])))
                [] (scenarioWorld []) eq_refl eq_refl eq_refl eq_refl eq_refl eq_refl)
      as (_ & w' & Hd & (peers & Hcalls & Herrs & _) & _).
    exists w'. split; [exact Hd|]. exists peers. split; [exact Hcalls|exact Herrs].
  - destruct (notification_dispatched_once scenarioKeyFunc
                (podsPool setPeers [podObject (scenarioPod "cache-0" "10.0.0.2" [runningStatus])])
                (scenarioInformer PodType UpdatePeersFromPods
                   [podObject (scenarioPod "cache-0" "10.0.0.2" [runningStatus])])
                UpdatePeersFromPods setPeers
                []
                (deleteNotification (OtherObject "cache.DeletedFinalStateUnknown"))
                [] (scenarioWorld []) eq_refl eq_refl eq_refl eq_refl eq_refl eq_refl)
      as (_ & w' & Hd & (Hcalls & Herrs & _) & _).
    exists w'. split; [exact Hd|]. split; [exact Hcalls|exact Herrs].
Defined.

(** C6, at a configuration with nothing but the callback set. *)
Lemma New_fills_defaults_witness :
  exists e err w',
    New None None (fun _ _ => true) (fun _ => [])
        {| ConfigLogger := None; Mechanism := ""; OnUpdate := Some setPeers;
           Namespace := ""; Selector := ""; PeerScheme := ""; PeerPort := 0 |}
        (scenarioWorld []) = (Return (Some e, err), w') /\
    PeerScheme (conf e) = "http" /\
    PeerPort (conf e) = 8080%Z /\
    Mechanism (conf e) = "" /\
    exists inf, informer e = Some inf /\ infObjType inf = EndpointsType /\
                infHandler inf = Some UpdatePeersFromEndpoints.
Proof.
  destruct (New_fills_defaults None None (fun _ _ => true) (fun _ => [])
              {| ConfigLogger := None; Mechanism := ""; OnUpdate := Some setPeers;
                 Namespace := ""; Selector := ""; PeerScheme := ""; PeerPort := 0 |}
              (scenarioWorld []) eq_refl eq_refl)
    as (e & err & w' & Hrun & Hs & _ & Hp & _ & Hm & _ & _ & _ & Hep & _).
  exists e, err, w'. split; [exact Hrun|].
  split; [exact (Hs eq_refl)|]. split; [exact (Hp eq_refl)|]. split; [exact Hm|].
  destruct (Hep (or_introl eq_refl)) as (_ & inf & Hi & Ht & _ & Hh & _).
  exists inf. split; [exact Hi|]. split; [exact Ht|exact Hh].
Defined.

(** C8, at a running pool. *)
Lemma Close_is_single_use_witness :
  done (podsPool setPeers []) = ChanOpen /\
  exists e1,
    Close (podsPool setPeers []) (scenarioWorld [])
      = (Return e1, {| app := []; trace := [CallWatchCancel; CloseDone] |}) /\
    done e1 = ChanClosed /\
    Close e1 (scenarioWorld [])
      = (Panic "close of closed channel", {| app := []; trace := [CallWatchCancel] |}).
Proof.
  split; [reflexivity|].
  destruct (Close_is_single_use (podsPool setPeers []) (scenarioWorld []) eq_refl)
    as (e1 & Hrun & _ & Hd & _ & Hagain).
  exists e1. split; [exact Hrun|]. split; [exact Hd|exact (Hagain (scenarioWorld []))].
Defined.

(** C9, at the mechanism [services]. *)
Lemma unknown_mechanism_rejected_witness :
  "services" <> "" /\ "services" <> WatchEndpoints /\ "services" <> WatchPods /\
  start (fun _ _ => true) (fun _ => [])
        (scenarioPool (scenarioConf setPeers "services" "http" 8080) None) (scenarioWorld [])
    = (Return (scenarioPool (scenarioConf setPeers "services" "http" 8080) None,
               Some "unknown value for watch mechanism: services"),
       (scenarioWorld [])) /\
  exists p err,
    New None None (fun _ _ => true) (fun _ => [])
        (scenarioConf setPeers "services" "http" 8080) (scenarioWorld [])
      = (Return (p, Some err), (scenarioWorld [])) /\
    err = "unknown value for watch mechanism: services".
Proof.
  assert (H1 : "services" <> "") by discriminate.
  assert (H2 : "services" <> WatchEndpoints) by discriminate.
  assert (H3 : "services" <> WatchPods) by discriminate.
  split; [exact H1|]. split; [exact H2|]. split; [exact H3|].
  destruct (@unknown_mechanism_rejected Ring scenarioKeyFunc None None
              (fun _ _ => true) (fun _ => []) "services" H1 H2 H3)
    as (Hstart & Hnew).
  split.
  - exact (Hstart (scenarioPool (scenarioConf setPeers "services" "http" 8080) None)
                  (scenarioWorld []) eq_refl).
  - destruct (Hnew (scenarioConf setPeers "services" "http" 8080) (scenarioWorld []) eq_refl)
      as (p & err & Hrun & Hval & _).
    exists p, err. split; [exact Hrun|]. exact (proj2 (Hval eq_refl eq_refl)).
Defined.

(** ** The further properties at concrete inputs *)

(** X1, at an update notification on a store with one ready and one unready
    pod. *)
Lemma handler_hands_over_store_peers_witness :
  keyed scenarioKeyFunc (updateNotification (podObject podA) (podObject podB)) = true /\
  exists w',
    handle scenarioKeyFunc
           (podsPool setPeers [podObject podA; podObject podDown])
           (callUpdateFunc UpdatePeersFromPods
              (podsPool setPeers [podObject podA; podObject podDown]))
           (updateNotification (podObject podA) (podObject podB))
           (scenarioWorld []) = (Return tt, w') /\
    onUpdateCalls (trace w') = [["https://10.0.0.2:443"]].
Proof.
  split; [reflexivity|].
  destruct (handler_hands_over_store_peers scenarioKeyFunc
              (podsPool setPeers [podObject podA; podObject podDown])
              (scenarioInformer PodType UpdatePeersFromPods [podObject podA; podObject podDown])
              UpdatePeersFromPods setPeers
              (updateNotification (podObject podA) (podObject podB))
              (scenarioWorld []) eq_refl eq_refl eq_refl eq_refl)
    as (w' & Hrun & Hcalls & _).
  exists w'. split; [exact Hrun|exact Hcalls].
Defined.

(** X2, at two stores of one pod each. *)
Lemma builders_distribute_over_store_witness :
  forallb (fits UpdatePeersFromPods) [podObject podA] = true /\
  forallb (fits UpdatePeersFromPods) [podObject podB] = true /\
  exists w12,
    callUpdateFunc UpdatePeersFromPods
      (withStore (podsPool setPeers []) [podObject podA; podObject podB])
      (scenarioWorld []) = (Return tt, w12) /\
    onUpdateCalls (trace w12) = [["https://10.0.0.2:443"; "https://10.0.0.3:443"]].
Proof.
  split; [reflexivity|]. split; [reflexivity|].
  destruct (builders_distribute_over_store (podsPool setPeers [])
              (scenarioInformer PodType UpdatePeersFromPods [])
              UpdatePeersFromPods setPeers [podObject podA] [podObject podB]
              (scenarioWorld []) eq_refl eq_refl eq_refl eq_refl)
    as (l1 & l2 & w1 & w2 & w12 & H1 & C1 & H2 & C2 & H12 & C12).
  exists w12. split; [exact H12|].
  rewrite C12.
  assert (E1 : l1 = ["https://10.0.0.2:443"]).
  { apply (f_equal snd) in H1. cbn [snd] in H1. rewrite <- H1 in C1.
    vm_compute in C1. now injection C1 as <-. }
  assert (E2 : l2 = ["https://10.0.0.3:443"]).
  { apply (f_equal snd) in H2. cbn [snd] in H2. rewrite <- H2 in C2.
    vm_compute in C2. now injection C2 as <-. }
  rewrite E1, E2. reflexivity.
Defined.

(** X3, at two ready pods with different addresses. *)
Lemma pods_builder_distinct_addresses_witness :
  NoDup (map (fun p => PodIP (Status p)) (filter podReady [podA; podB])) /\
  exists peers w',
    updatePeersFromPods (podsPool setPeers [podObject podA; podObject podB])
                        (scenarioWorld []) = (Return tt, w') /\
    onUpdateCalls (trace w') = [peers] /\
    NoDup peers.
Proof.
  assert (Hnodup : NoDup (map (fun p => PodIP (Status p)) (filter podReady [podA; podB]))).
  { cbn. repeat (constructor; [simpl; intuition discriminate|]). constructor. }
  split; [exact Hnodup|].
  destruct (pods_builder_distinct_addresses
              (podsPool setPeers [podObject podA; podObject podB])
              (scenarioInformer PodType UpdatePeersFromPods [podObject podA; podObject podB])
              [podA; podB] setPeers (scenarioWorld []) eq_refl eq_refl eq_refl Hnodup)
    as (peers & w' & Hrun & Hcalls & Hpeers).
  exists peers, w'. split; [exact Hrun|]. split; [exact Hcalls|exact Hpeers].
Defined.

(** X4, at one endpoints object with two addresses. *)
Lemma endpoints_builder_distinct_addresses_witness :
  NoDup (map (fun sa : EndpointSubset * EndpointAddress => IP (snd sa))
             (subsetAddressPairs [endpointsA])) /\
  exists peers w',
    updatePeersFromEndpoints (endpointsPool setPeers [endpointsObject endpointsA])
                             (scenarioWorld []) = (Return tt, w') /\
    onUpdateCalls (trace w') = [peers] /\
    NoDup peers.
Proof.
  assert (Hnodup : NoDup (map (fun sa : EndpointSubset * EndpointAddress => IP (snd sa))
                              (subsetAddressPairs [endpointsA]))).
  { cbn. repeat (constructor; [simpl; intuition discriminate|]). constructor. }
  split; [exact Hnodup|].
  destruct (endpoints_builder_distinct_addresses
              (endpointsPool setPeers [endpointsObject endpointsA])
              (scenarioInformer EndpointsType UpdatePeersFromEndpoints
                 [endpointsObject endpointsA])
              [endpointsA] setPeers (scenarioWorld []) eq_refl eq_refl eq_refl Hnodup)
    as (peers & w' & Hrun & Hcalls & Hpeers).
  exists peers, w'. split; [exact Hrun|]. split; [exact Hcalls|exact Hpeers].
Defined.

(** X5, at a store whose only pod is not ready, with a ring that holds a
    peer. *)
Lemma pods_builder_none_ready_witness :
  (forall p, In p [podDown] ->
             exists status, In status (ContainerStatuses (Status p)) /\
                            ~ statusPasses status) /\
  exists w',
    updatePeersFromPods (podsPool setPeers [podObject podDown])
                        {| app := ["https://10.0.0.4:443"]; trace := [] |}
      = (Return tt, w') /\
    onUpdateCalls (trace w') = [[]] /\
    app w' = [].
Proof.
  assert (Hnone : forall p, In p [podDown] ->
             exists status, In status (ContainerStatuses (Status p)) /\
                            ~ statusPasses status).
  { intros p [<-|[]]. exists unreadyStatus. split; [left; reflexivity|].
    intros [Hready _]. discriminate Hready. }
  split; [exact Hnone|].
  destruct (pods_builder_none_ready (podsPool setPeers [podObject podDown])
              (scenarioInformer PodType UpdatePeersFromPods [podObject podDown])
              [podDown] setPeers {| app := ["https://10.0.0.4:443"]; trace := [] |}
              eq_refl eq_refl eq_refl Hnone)
    as (w' & Hrun & Hcalls & Happ).
  exists w'. split; [exact Hrun|]. split; [exact Hcalls|exact Happ].
Defined.

(** X6, at a pool without callback and a store with a ready pod. *)
Lemma builders_panic_without_callback_witness :
  OnUpdate (conf (@podsPoolWithoutCallback Ring [podObject podA])) = None /\
  exists w' : World Ring,
    callUpdateFunc UpdatePeersFromPods (@podsPoolWithoutCallback Ring [podObject podA])
                   (scenarioWorld []) = (Panic nilDeref, w') /\
    onUpdateCalls (trace w') = [] /\
    app w' = [].
Proof.
  split; [reflexivity|].
  destruct (builders_panic_without_callback (@podsPoolWithoutCallback Ring [podObject podA])
              (scenarioInformer PodType UpdatePeersFromPods [podObject podA])
              UpdatePeersFromPods (scenarioWorld []) eq_refl eq_refl eq_refl)
    as (w' & Hrun & Hcalls & _ & Happ).
  exists w'. split; [exact Hrun|]. split; [exact Hcalls|exact Happ].
Defined.

(** X7, outside a cluster: the rest configuration cannot be had. *)
Lemma New_returns_nil_only_without_client_witness :
  exists p err w',
    New (Some "unable to load in-cluster configuration") None
        (fun _ _ => true) (fun _ => [])
        (scenarioConf setPeers "pods" "http" 8080) (scenarioWorld [])
      = (Return (p, err), w') /\
    p = None /\
    err = Some "Failed to get k8s rest config: unable to load in-cluster configuration" /\
    w' = scenarioWorld [].
Proof.
  destruct (New_returns_nil_only_without_client
              (Some "unable to load in-cluster configuration") None
              (fun _ _ => true) (fun _ => [])
              (scenarioConf setPeers "pods" "http" 8080) (scenarioWorld []))
    as (p & err & w' & Hrun & Hnil & Hrest & _).
  exists p, err, w'. split; [exact Hrun|]. split.
  - apply Hnil. left. discriminate.
  - exact (Hrest _ eq_refl).
Defined.

(** X8, at a successful start with an empty scheme and port 0. *)
Lemma New_pool_invariants_witness :
  exists e err w',
    New None None (fun _ _ => true) (fun _ => [])
        (scenarioConf setPeers "pods" "" 0) (scenarioWorld [])
      = (Return (Some e, err), w') /\
    PeerScheme (conf e) <> "" /\
    PeerPort (conf e) <> 0%Z /\
    ConfigLogger (conf e) = Some (log e) /\
    cancelled (watchCtx e) = false.
Proof.
  do 3 eexists.
  match goal with
  | |- ?A /\ _ => assert (Hrun : A) by reflexivity; split; [exact Hrun|]
  end.
  exact (New_pool_invariants _ _ _ _ _ _ _ _ _ Hrun).
Defined.

(** X9, at a successful start for the pods mechanism. *)
Lemma New_error_iff_not_running_witness :
  exists e w',
    New None None scenarioWait (fun _ => [podObject podA])
        (scenarioConf setPeers "pods" "https" 443) (scenarioWorld [])
      = (Return (Some e, None), w') /\
    lifecycle e = Lifecycle.Running /\
    workerRunning e = true /\
    done e = ChanOpen.
Proof.
  do 2 eexists.
  match goal with
  | |- ?A /\ _ => assert (Hrun : A) by reflexivity; split; [exact Hrun|]
  end.
  destruct (New_error_iff_not_running _ _ _ _ _ _ _ _ _ Hrun) as (Hl & Hw & Hok).
  split; [exact (proj1 Hl eq_refl)|]. split; [exact (proj1 Hw eq_refl)|].
  exact (proj1 (Hok eq_refl)).
Defined.

(** X10, at a successful start for the pods mechanism, closed once. *)
Lemma Close_after_New_returns_witness :
  waitsUntilStopped scenarioWait /\
  exists e w' e1,
    New None None scenarioWait (fun _ => [podObject podA])
        (scenarioConf setPeers "pods" "https" 443) (scenarioWorld [])
      = (Return (Some e, None), w') /\
    done e = ChanOpen /\
    Close e w' = (Return e1, {| app := [];
                                trace := [GoInformerRun; CallWatchCancel; CloseDone] |}) /\
    done e1 = ChanClosed.
Proof.
  split; [exact scenarioWait_waitsUntilStopped|].
  eexists. eexists.
  assert (Hrun : New None None scenarioWait (fun _ => [podObject podA])
                     (scenarioConf setPeers "pods" "https" 443) (scenarioWorld [])
                 = (Return (Some _, None), _)) by reflexivity.
  destruct (Close_after_New_returns _ _ _ _ _ _ _ _ _ scenarioWait_waitsUntilStopped Hrun)
    as (Hdone & Hclose).
  destruct (Hclose {| app := []; trace := [GoInformerRun] |}) as (e1 & Hc & Hd1 & _).
  exists e1. split; [exact Hrun|]. split; [exact Hdone|]. split; [exact Hc|exact Hd1].
Defined.

(** X11, at a running pool and a notification that arrives after
    [Close]. *)
Lemma Close_stops_the_worker_witness :
  done (podsPool setPeers [podObject podA]) = ChanOpen /\
  exists e1 w',
    Close (podsPool setPeers [podObject podA]) (scenarioWorld []) = (Return e1, w') /\
    worker scenarioKeyFunc e1
           [([podObject podA; podObject podB], addNotification (podObject podB))] w'
      = (Return e1, w').
Proof.
  split; [reflexivity|].
  destruct (Close_stops_the_worker scenarioKeyFunc
              (podsPool setPeers [podObject podA]) (scenarioWorld []) eq_refl)
    as (e1 & w' & Hrun & _ & _ & _ & Hstop).
  exists e1, w'. split; [exact Hrun|apply Hstop].
Defined.

(** X12, at a configuration without logger. *)
Lemma New_default_logger_witness :
  exists e err w',
    New None None (fun _ _ => true) (fun _ => [])
        (scenarioConf setPeers "pods" "https" 443) (scenarioWorld [])
      = (Return (Some e, err), w') /\
    printed (log e) [CallDebugf "Fetching peer list from pods API";
                     CallErrorf "while calling MetaNamespaceKeyFunc(): object has no meta"]
      = ["while calling MetaNamespaceKeyFunc(): object has no meta"].
Proof.
  do 3 eexists.
  match goal with
  | |- ?A /\ _ => assert (Hrun : A) by reflexivity; split; [exact Hrun|]
  end.
  exact (proj1 (New_default_logger _ _ _ _ _ _ _ _ _ Hrun) eq_refl _).
Defined.

(** X13, at an add notification followed by a delete notification whose
    object has no key. *)
Lemma worker_calls_per_keyed_notification_witness :
  Forall (fun d : list object * notification =>
            forallb (fits UpdatePeersFromPods) (fst d) = true)
         [([podObject podA], addNotification (podObject podA));
          ([], deleteNotification (OtherObject "cache.DeletedFinalStateUnknown"))] /\
  exists e' w',
    worker scenarioKeyFunc (podsPool setPeers [])
           [([podObject podA], addNotification (podObject podA));
            ([], deleteNotification (OtherObject "cache.DeletedFinalStateUnknown"))]
           (scenarioWorld []) = (Return e', w') /\
    onUpdateCalls (trace w') = [["https://10.0.0.2:443"]].
Proof.
  assert (Hfits : Forall (fun d : list object * notification =>
                     forallb (fits UpdatePeersFromPods) (fst d) = true)
            [([podObject podA], addNotification (podObject podA));
             ([], deleteNotification (OtherObject "cache.DeletedFinalStateUnknown"))]).
  { repeat constructor. }
  split; [exact Hfits|].
  destruct (worker_calls_per_keyed_notification scenarioKeyFunc
              UpdatePeersFromPods setPeers
              [([podObject podA], addNotification (podObject podA));
               ([], deleteNotification (OtherObject "cache.DeletedFinalStateUnknown"))]
              (podsPool setPeers [])
              (scenarioInformer PodType UpdatePeersFromPods [])
              (scenarioWorld []) eq_refl eq_refl eq_refl eq_refl eq_refl Hfits)
    as (e' & w' & Hrun & Hcalls & _).
  exists e', w'. split; [exact Hrun|exact Hcalls].
Defined.

(** X14, at [main]'s default port 8080 and the own address 10.0.0.1. *)
Lemma main_localpeer_among_peers_witness :
  exists e err w',
    New None None (fun _ _ => true) (fun _ => [])
        (mainConfig "default" "app=cache" 8080 setPeers) (scenarioWorld [])
      = (Return (Some e, err), w') /\
    exists peers w2,
      updatePeersFromEndpoints (withStore e (map endpointsObject [endpointsA]))
                               (scenarioWorld []) = (Return tt, w2) /\
      In (localpeer "10.0.0.1" 8080) peers /\
      onUpdateCalls (trace w2) = [peers].
Proof.
  do 3 eexists.
  match goal with
  | |- ?A /\ _ => assert (Hrun : A) by reflexivity; split; [exact Hrun|]
  end.
  destruct (main_localpeer_among_peers _ _ _ _ "default" "app=cache" "10.0.0.1" 8080
              setPeers _ _ _ _ _ [endpointsA] (scenarioWorld []) Hrun eq_refl)
    as (peers & w2 & Hbuild & Hcalls & _ & Hlocal & _).
  { exists {| Addresses := [{| IP := "10.0.0.1" |}; {| IP := "10.0.0.5" |}] |}.
    left. reflexivity. }
  exists peers, w2. split; [exact Hbuild|]. split; [|exact Hcalls].
  apply Hlocal. discriminate.
Defined.

End k8spool.

(** ** Properties of the metrics collector *)

Module metrics_properties.

Import prometheus metrics.

Lemma suffixes_NoDup : NoDup suffixes.
Proof.
  unfold suffixes.
  repeat (constructor; [simpl; intuition discriminate|]). constructor.
Qed.

(** The names [Collect] has sent are an initial part of the twenty names,
    and all of them when it ran to its end. *)
Lemma Collect_sends_initial_names (valid : string -> bool) (g : groupcache.Group) :
  exists rest,
    map (fun s => ("groupcache_" ++ groupcache.Name g ++ "_") ++ s) suffixes
      = (names (snd (Collect valid {| group := Some g |} [])) ++ rest)%list /\
    (fst (Collect valid {| group := Some g |} []) = true -> rest = []).
Proof.
  unfold Collect. cbn [group]. cbv zeta.
  generalize ("groupcache_" ++ groupcache.Name g ++ "_"). intros P.
  unfold cacheStats, andThen, send, names, suffixes.
  repeat match goal with
         | |- context [valid ?n] => destruct (valid n); cbn [fst snd app map desc fqName]
         end;
    rewrite ?k8spool.string_append_assoc;
    eexists; (split; [reflexivity|]); first [reflexivity | discriminate].
Qed.

(** X15.  Whatever the group is called and whichever names the library
    accepts, the metrics [Collect] sends carry pairwise different names;
    when it runs to its end it has sent twenty metrics, named by the group
    prefix followed by the twenty fixed endings, in that order; with a nil
    group it panics before sending anything. *)
Theorem Collect_names_distinct (valid : string -> bool) (c : collector) :
  NoDup (names (snd (Collect valid c []))) /\
  (fst (Collect valid c []) = true ->
   exists g, group c = Some g /\
             names (snd (Collect valid c [])) =
               map (fun s => ("groupcache_" ++ groupcache.Name g ++ "_") ++ s) suffixes /\
             List.length (snd (Collect valid c [])) = 20%nat) /\
  (group c = None -> Collect valid c [] = (false, [])).
Proof.
  destruct c as [[g|]].
  - destruct (Collect_sends_initial_names valid g) as (rest & Hnames & Hall).
    assert (Hnodup : NoDup (map (fun s => ("groupcache_" ++ groupcache.Name g ++ "_") ++ s)
                                suffixes)).
    { apply k8spool.NoDup_map_injective; [|exact suffixes_NoDup].
      intros x y. apply k8spool.string_append_inv_head. }
    split; [|split].
    + rewrite Hnames in Hnodup. now apply NoDup_app_remove_r in Hnodup.
    + intros Hok. exists g. split; [reflexivity|].
      rewrite (Hall Hok), app_nil_r in Hnames. split; [now symmetry|].
      apply (f_equal (@List.length string)) in Hnames.
      unfold names in Hnames. rewrite !length_map in Hnames.
      rewrite <- Hnames. reflexivity.
    + discriminate.
  - split; [constructor|]. split; [discriminate | reflexivity].
Qed.

(** X16.  In a completed collection the metric [server_requests_total]
    carries the group's [LocalLoadErrs] counter, the value already reported
    as [local_load_errors_total]; the [ServerRequests] counter is not
    read: with any other value of it the same metrics are sent. *)
Theorem server_requests_reports_local_load_errors
    (valid : string -> bool) (g : groupcache.Group) (ch : Chan) :
  Collect valid {| group := Some g |} [] = (true, ch) ->
  (forall m, In m ch ->
             fqName (desc m) = ("groupcache_" ++ groupcache.Name g ++ "_")
                               ++ "server_requests_total" ->
             value m = float64_of_int
                         (groupcache.Stats.LocalLoadErrs (groupcache.Stats g))) /\
  (forall n, Collect valid {| group := Some (withServerRequests g n) |} [] = (true, ch)).
Proof.
  intros Hrun. split.
  - revert Hrun. unfold Collect. cbn [group]. cbv zeta.
    generalize ("groupcache_" ++ groupcache.Name g ++ "_"). intros P.
    unfold cacheStats, andThen, send.
    repeat match goal with
           | |- context [valid ?n] => destruct (valid n); cbn [fst snd app]
           end;
      intros Hrun; try discriminate Hrun.
    injection Hrun as <-. intros m Hin Hname.
    cbn [In] in Hin.
    repeat (destruct Hin as [<-|Hin];
            [cbn [desc fqName value] in Hname |- *;
             rewrite ?k8spool.string_append_assoc in Hname;
             apply k8spool.string_append_inv_head in Hname;
             first [discriminate Hname | reflexivity]|]).
    destruct Hin.
  - intros n. rewrite <- Hrun. destruct g as [nm st mc hc]. reflexivity.
Qed.

(** X15, at the group [testgroup] of [main.go] with every name accepted. *)
Lemma Collect_names_distinct_witness :
  fst (Collect (fun _ => true) {| group := Some scenarioGroup |} []) = true /\
  List.length (snd (Collect (fun _ => true) {| group := Some scenarioGroup |} []))
    = 20%nat.
Proof.
  split; [reflexivity|].
  destruct (Collect_names_distinct (fun _ => true) {| group := Some scenarioGroup |})
    as (_ & Hok & _).
  destruct (Hok eq_refl) as (g & _ & _ & Hlen). exact Hlen.
Defined.

(** X16, at the same group: [server_requests_total] says three. *)
Lemma server_requests_reports_local_load_errors_witness :
  Collect (fun _ => true) {| group := Some scenarioGroup |} []
    = (true, snd (Collect (fun _ => true) {| group := Some scenarioGroup |} [])) /\
  forall m,
    In m (snd (Collect (fun _ => true) {| group := Some scenarioGroup |} [])) ->
    fqName (desc m) = "groupcache_testgroup_server_requests_total" ->
    value m = float64_of_int 3.
Proof.
  assert (Hrun : Collect (fun _ => true) {| group := Some scenarioGroup |} []
                 = (true, snd (Collect (fun _ => true)
                                       {| group := Some scenarioGroup |} [])))
    by reflexivity.
  split; [exact Hrun|].
  exact (proj1 (server_requests_reports_local_load_errors _ _ _ Hrun)).
Defined.

End metrics_properties.
